(** * Boolean retrieval over a manual inverted index

    A shallow embedding of the Python sources
    [preprocessing/preprocessor.py] (class [DocumentPreprocessor]) and
    [retrieval/searcher.py] (class [BooleanRetrieval]), and the properties
    of the query evaluator, the index builder and the query verifier.

    Python [str] values are modelled as [string]; a character is a code
    point below 256.  Python [set] and [dict] values are [gset] and [gmap].
    Progress output written with [print] is left out, except the error
    line of [search_boolean]. *)

From Stdlib Require Import ZArith NArith Ascii String List Lia.
From stdpp Require Import base option list gmap sets strings sorting.

Local Open Scope stdpp_scope.
#[local] Arguments String.append !s1 s2 : simpl nomatch.
#[local] Set Warnings "-clear-no-such-hyp".

(** ** Python string operations *)

Module PyStr.

(** [str.isspace] on one character: TAB..CR, FS..US, SPACE, NEL, NBSP. *)
Definition isspace (c : ascii) : bool :=
  let n := N_of_ascii c in
  ((9 <=? n) && (n <=? 13) || (28 <=? n) && (n <=? 32)
   || (n =? 133) || (n =? 160))%N.

(** [str.lower] on one character: A..Z, and the upper-case letters of
    the Latin-1 block (all of 192..222 but the multiplication sign). *)
Definition lower_char (c : ascii) : ascii :=
  let n := N_of_ascii c in
  if ((65 <=? n) && (n <=? 90)
      || (192 <=? n) && (n <=? 222) && negb (n =? 215))%N
  then ascii_of_N (n + 32) else c.

Fixpoint lower (s : string) : string :=
  match s with
  | EmptyString => EmptyString
  | String c s' => String (lower_char c) (lower s')
  end.

Fixpoint lstrip (s : string) : string :=
  match s with
  | EmptyString => EmptyString
  | String c s' => if isspace c then lstrip s' else s
  end.

Fixpoint rstrip (s : string) : string :=
  match s with
  | EmptyString => EmptyString
  | String c s' =>
      match rstrip s' with
      | EmptyString => if isspace c then EmptyString else String c EmptyString
      | r => String c r
      end
  end.

(** [s.strip()] *)
Definition strip (s : string) : string := rstrip (lstrip s).

(** [s.startswith(p)] *)
Fixpoint startswith (p s : string) : bool :=
  match p, s with
  | EmptyString, _ => true
  | String a p', String b s' => if Ascii.eqb a b then startswith p' s' else false
  | String _ _, EmptyString => false
  end.

(** [sub in s] *)
Fixpoint contains (sub s : string) : bool :=
  startswith sub s ||
  match s with
  | EmptyString => false
  | String _ s' => contains sub s'
  end.

(** [s[n:]] *)
Fixpoint skip (n : nat) (s : string) : string :=
  match n, s with
  | S n', String _ s' => skip n' s'
  | _, _ => s
  end.

(** [s.partition(sep)] without the separator: the text before and after
    the first occurrence of [sep], or [None] when there is none. *)
Fixpoint partition (sep s : string) : option (string * string) :=
  if startswith sep s then Some (EmptyString, skip (String.length sep) s)
  else match s with
       | EmptyString => None
       | String c s' =>
           match partition sep s' with
           | Some (l, r) => Some (String c l, r)
           | None => None
           end
       end.

(** [s.split(sep)] for a non-empty [sep]: cut at every occurrence found
    scanning left to right.  Each cut consumes at least one character,
    so [String.length s] rounds are enough. *)
Fixpoint split_fuel (fuel : nat) (sep s : string) : list string :=
  match partition sep s with
  | None => [s]
  | Some (l, r) =>
      match fuel with
      | 0 => [l; r]
      | S fuel' => l :: split_fuel fuel' sep r
      end
  end.

Definition split (sep s : string) : list string :=
  split_fuel (String.length s) sep s.

(** [s.split()]: the maximal runs of non-whitespace characters. *)
Fixpoint split_ws (s : string) : list string :=
  match s with
  | EmptyString => []
  | String c s' =>
      if isspace c then split_ws s'
      else match s' with
           | EmptyString => [String c EmptyString]
           | String c' _ =>
               if isspace c' then String c EmptyString :: split_ws s'
               else match split_ws s' with
                    | w :: ws => String c w :: ws
                    | [] => [String c EmptyString]
                    end
           end
  end.

(** [sep.join(l)] *)
Fixpoint join (sep : string) (l : list string) : string :=
  match l with
  | [] => EmptyString
  | [x] => x
  | x :: l' => x +:+ sep +:+ join sep l'
  end.

(** [c in s] for a character [c] *)
Fixpoint mem_char (c : ascii) (s : string) : bool :=
  match s with
  | EmptyString => false
  | String a s' => Ascii.eqb c a || mem_char c s'
  end.

(** Keep the characters of [s] that satisfy [keep]. *)
Fixpoint filter_chars (keep : ascii → bool) (s : string) : string :=
  match s with
  | EmptyString => EmptyString
  | String c s' =>
      if keep c then String c (filter_chars keep s') else filter_chars keep s'
  end.

(** [l[:stop]] for an integer [stop]; a negative [stop] counts from the
    end of the list. *)
Definition slice_to {A} (stop : Z) (l : list A) : list A :=
  if (0 <=? stop)%Z then take (Z.to_nat stop) l
  else take (Z.to_nat (Z.of_nat (length l) + stop)) l.

(** [sorted(list(s))] for a set of strings: code-point order. *)
Definition sorted (s : gset string) : list string :=
  merge_sort String.le (elements s).

(** [l[i]] for an index that is not negative; out of range it raises
    [IndexError], kept as [None] here and turned into the exception by the
    caller. *)
Definition item {A} (l : list A) (i : nat) : option A := l !! i.

(** [str.isprintable] on one character: the ASCII characters from the
    space to the tilde, and the Latin-1 characters from the inverted
    exclamation mark on, the soft hyphen left out. *)
Definition isprintable (c : ascii) : bool :=
  let n := N_of_ascii c in
  ((32 <=? n) && (n <? 127) || (161 <=? n) && negb (n =? 173))%N.

Definition hex_digit (n : N) : ascii :=
  match String.get (N.to_nat n) "0123456789abcdef" with
  | Some c => c
  | None => "0"%char
  end.

(** One character of [repr(s)], inside the quotes [quote]. *)
Definition repr_char (quote c : ascii) : string :=
  let n := N_of_ascii c in
  if Ascii.eqb c quote || Ascii.eqb c "\"%char
  then String "\"%char (String c EmptyString)
  else if (n =? 9)%N then "\t"
  else if (n =? 10)%N then "\n"
  else if (n =? 13)%N then "\r"
  else if isprintable c then String c EmptyString
  else String "\"%char (String "x"%char
         (String (hex_digit (n / 16)) (String (hex_digit (n mod 16)) EmptyString))).

Fixpoint repr_chars (quote : ascii) (s : string) : string :=
  match s with
  | EmptyString => EmptyString
  | String c s' => repr_char quote c +:+ repr_chars quote s'
  end.

(** [repr(s)] for a string: single quotes, unless the string holds a
    single quote and no double quote. *)
Definition repr_str (s : string) : string :=
  let quote :=
    if mem_char "'"%char s && negb (mem_char (ascii_of_nat 34) s)
    then ascii_of_nat 34 else "'"%char in
  String quote (repr_chars quote s +:+ String quote EmptyString).

(** [repr(l)] for a list of strings, as an f-string formats it. *)
Definition repr_list (l : list string) : string :=
  "[" +:+ join ", " (repr_str <$> l) +:+ "]".

End PyStr.

Import PyStr.

(** ** Exceptions

    A Python call either returns a value or raises; the exception is kept
    as its message. *)

Inductive Exc (A : Type) : Type :=
  | Ok (a : A)
  | Raise (e : string).
Arguments Ok {A} a.
Arguments Raise {A} e.

#[global] Instance Exc_ret : MRet Exc := @Ok.
#[global] Instance Exc_bind : MBind Exc := λ A B f m,
  match m with
  | Ok a => f a
  | Raise e => Raise e
  end.

(** ** preprocessing/preprocessor.py *)

Module Preprocessor.

(** [string.punctuation]; the second character is the double quote. *)
Definition punctuation : string :=
  String "!" (String (ascii_of_nat 34) "#$%&'()*+,-./:;<=>?@[\]^_`{|}~").

Section DocumentPreprocessor.
(** [self.stop_words], the set built in [__init__] from NLTK's English
    stopword list, and [self.stemmer.stem] of NLTK's [PorterStemmer]:
    both come from the NLTK library. *)
Variable stop_words : gset string.
Variable stem : string → string.

(** [text.translate(str.maketrans('', '', string.punctuation))] *)
Definition remove_punctuation (text : string) : string :=
  filter_chars (λ c, negb (mem_char c punctuation)) text.

Definition to_lowercase (text : string) : string := lower text.

Definition remove_stopwords (words : list string) : list string :=
  filter (λ word, lower word ∉ stop_words) words.

Definition stem_words (words : list string) : list string :=
  stem <$> words.

Definition clean_whitespace (text : string) : string :=
  join " " (split_ws text).

Definition preprocess_manual (text : string) : string :=
  let text := to_lowercase text in
  let text := remove_punctuation text in
  let text := clean_whitespace text in
  let words := split_ws text in
  let words := remove_stopwords words in
  let words := stem_words words in
  join " " words.

(** *** The normalizer as the specification words it *)

(** The ASCII punctuation set, by code point. *)
Definition is_ascii_punctuation (c : ascii) : bool :=
  let n := N_of_ascii c in
  ((33 <=? n) && (n <=? 47) || (58 <=? n) && (n <=? 64)
   || (91 <=? n) && (n <=? 96) || (123 <=? n) && (n <=? 126))%N.

(** Every run of whitespace becomes one space. *)
Fixpoint collapse_runs (s : string) : string :=
  match s with
  | EmptyString => EmptyString
  | String c s' =>
      if isspace c then
        match s' with
        | EmptyString => " "
        | String c' _ =>
            if isspace c' then collapse_runs s'
            else String " " (collapse_runs s')
        end
      else String c (collapse_runs s')
  end.

(** Modelled from the spec: [DocumentPreprocessor.preprocess_text], the
    method [_get_documents_for_term] calls to turn a term into a list
    of tokens; the class in preprocessor.py defines no method of that
    name.  It is the normalizer of the specification: lowercase the
    entire string, remove every ASCII punctuation character, collapse
    runs of whitespace into single spaces and trim the ends, split on
    whitespace, remove the tokens of the stopword set, stem each
    remaining token. *)
Definition preprocess_text (text : string) : list string :=
  let text := lower text in
  let text := filter_chars (λ c, negb (is_ascii_punctuation c)) text in
  let text := strip (collapse_runs text) in
  let tokens := split_ws text in
  let tokens := filter (λ token, token ∉ stop_words) tokens in
  stem <$> tokens.

(** The names a [DocumentPreprocessor] object answers to, apart from those
    every Python object has: the three attributes [__init__] sets and the
    methods of the class (preprocessor.py, lines 9 to 168). *)
Definition attributes : list string :=
  ["stemmer"; "analyzer"; "stop_words";
   "remove_punctuation"; "to_lowercase"; "remove_stopwords"; "stem_words";
   "clean_whitespace"; "preprocess_manual"; "preprocess_with_analyzer";
   "preprocess_documents"; "save_to_jsonl"; "display_preprocessing_summary"].

(** The attribute lookup [self.preprocessor.<name>]: a name the object does
    not have raises [AttributeError]. *)
Definition getattr (name : string) : Exc string :=
  if decide (name ∈ attributes) then Ok name
  else Raise ("'DocumentPreprocessor' object has no attribute " +:+ repr_str name).

(** The call [self.preprocessor.preprocess_text(term)] of searcher.py, line
    201, on an object of the class: Python looks the attribute up before it
    calls anything, and the class has no attribute of that name. *)
Definition call_preprocess_text (term : string) : Exc (list string) :=
  _ ← getattr "preprocess_text";
  Ok (preprocess_text term).

(** The Lucene analyzer of pyserini, [JAnalyzerUtils.analyze(self.analyzer,
    text)] with its tokens turned into strings; the call may raise. *)
Variable analyze : string → Exc (list string).

Definition preprocess_with_analyzer (text : string) : Exc string :=
  processed_tokens ← analyze text;
  Ok (join " " processed_tokens).

(** [doc[key]] on a dict: a missing key raises [KeyError], whose message is
    the [repr] of the key. *)
Definition getitem (doc : gmap string string) (key : string) : Exc string :=
  match doc !! key with
  | Some value => Ok value
  | None => Raise (repr_str key)
  end.

(** The loop of [preprocess_documents]. *)
Fixpoint preprocess_documents_loop (documents : list (gmap string string))
    (manual : bool) (processed_docs : list (gmap string string))
    : Exc (list (gmap string string)) :=
  match documents with
  | [] => Ok processed_docs
  | doc :: documents' =>
      doc_id ← getitem doc "id";
      original_content ← getitem doc "contents";
      processed_content ←
        (if manual then Ok (preprocess_manual original_content)
         else preprocess_with_analyzer original_content);
      preprocess_documents_loop documents' manual
        (processed_docs ++
           [ <["id" := doc_id]> (<["contents" := processed_content]>
               (<["raw" := original_content]> ∅)) ])
  end.

Definition preprocess_documents (documents : list (gmap string string))
    (manual : bool) : Exc (list (gmap string string)) :=
  preprocess_documents_loop documents manual [].

End DocumentPreprocessor.

End Preprocessor.

(** ** retrieval/searcher.py *)

Module Searcher.

(** The part of pyserini's [LuceneIndexReader] that [build_inverted_index]
    reads: [stats()['documents']], the collection id of an internal id, the
    stored document of a collection id ([None] when there is none) with its
    [contents()] (which may be [None]), and its term vector (a dict from
    term to frequency, or [None]).  Every call may raise. *)
Record Document := { contents : option string }.

Record LuceneIndexReader := {
  stats_documents : Exc nat;
  convert_internal_docid_to_collection_docid : nat → Exc string;
  doc : string → Exc (option Document);
  get_document_vector : string → Exc (option (gmap string nat))
}.

(** The attributes of a [BooleanRetrieval] object.  [preprocess_text] is
    the outcome of [self.preprocessor.preprocess_text(term)]: a list of
    tokens, or an exception. *)
Record BooleanRetrieval := {
  index_reader : option LuceneIndexReader;
  inverted_index : gmap string (gset string);
  documents : gmap string string;
  preprocess_text : string → Exc (list string)
}.

Definition set_documents (self : BooleanRetrieval)
    (d : gmap string string) : BooleanRetrieval :=
  {| index_reader := index_reader self;
     inverted_index := inverted_index self;
     documents := d;
     preprocess_text := preprocess_text self |}.

Definition set_inverted_index (self : BooleanRetrieval)
    (i : gmap string (gset string)) : BooleanRetrieval :=
  {| index_reader := index_reader self;
     inverted_index := i;
     documents := documents self;
     preprocess_text := preprocess_text self |}.

(** *** build_inverted_index *)

(** The two statements of the innermost loop: create the entry of [term]
    when it is missing, then add the document id to it. *)
Definition add_posting (collection_docid : string)
    (self : BooleanRetrieval) (term : string) : BooleanRetrieval :=
  let index :=
    match inverted_index self !! term with
    | None => <[term := ∅]> (inverted_index self)
    | Some _ => inverted_index self
    end in
  set_inverted_index self
    (<[term := default ∅ (index !! term) ∪ {[collection_docid]}]> index).

(** The body of the [try] of one round of the loop over internal ids.  An
    exception leaves the round where it is raised: what was stored before
    stays. *)
Definition index_document (reader : LuceneIndexReader)
    (self : BooleanRetrieval) (internal_docid : nat) : BooleanRetrieval :=
  match convert_internal_docid_to_collection_docid reader internal_docid with
  | Raise _ => self
  | Ok collection_docid =>
      match doc reader collection_docid with
      | Raise _ => self
      | Ok None => set_documents self (<[collection_docid := ""]> (documents self))
      | Ok (Some d) =>
          let doc_content := default "" (contents d) in
          let self :=
            set_documents self (<[collection_docid := doc_content]> (documents self)) in
          match get_document_vector reader collection_docid with
          | Raise _ => self
          | Ok None => self
          | Ok (Some doc_vector) =>
              if decide (doc_vector = ∅) then self
              else foldl (add_posting collection_docid) self
                     (map_to_list doc_vector).*1
          end
      end
  end.

Definition build_inverted_index (self : BooleanRetrieval) : Exc BooleanRetrieval :=
  match index_reader self with
  | None => Raise "Index reader not initialized"
  | Some reader =>
      total_docs ← stats_documents reader;
      Ok (foldl (index_document reader) self (seq 0 total_docs))
  end.

(** [__init__], once [initialize_searcher] has opened the reader: both
    dicts start empty and the index is built. *)
Definition init (reader : LuceneIndexReader)
    (preprocess_text : string → Exc (list string)) : Exc BooleanRetrieval :=
  build_inverted_index
    {| index_reader := Some reader;
       inverted_index := ∅;
       documents := ∅;
       preprocess_text := preprocess_text |}.

(** [self.preprocessor = DocumentPreprocessor()] of [__init__] (line 21):
    the object with an object of the class of preprocessor.py as its
    preprocessor, whose stopwords and stemmer are [stop_words] and [stem]. *)
Definition set_preprocessor (self : BooleanRetrieval) (stop_words : gset string)
    (stem : string → string) : BooleanRetrieval :=
  {| index_reader := index_reader self;
     inverted_index := inverted_index self;
     documents := documents self;
     preprocess_text := Preprocessor.call_preprocess_text stop_words stem |}.

(** *** The query evaluator *)

Section Evaluator.
Variable self : BooleanRetrieval.

Definition _get_documents_for_term (term : string) : Exc (gset string) :=
  let term := lower (strip term) in
  processed_term ← preprocess_text self term;
  Ok (foldl (λ (result_docs : gset string) token,
             match inverted_index self !! token with
             | Some docs => result_docs ∪ docs
             | None => result_docs
             end) ∅ processed_term).

(** The loop of [_handle_and] over [terms[1:]]. *)
Fixpoint intersect_terms (result_set : gset string) (terms : list string)
    : Exc (gset string) :=
  match terms with
  | [] => Ok result_set
  | term :: terms' =>
      term_docs ← _get_documents_for_term term;
      intersect_terms (result_set ∩ term_docs) terms'
  end.

Definition _handle_and (query : string) : Exc (gset string) :=
  let terms := strip <$> split " and " query in
  match terms with
  | [] => Ok ∅
  | term0 :: rest =>
      result_set ← _get_documents_for_term term0;
      intersect_terms result_set rest
  end.

(** The loop of [_handle_or]. *)
Fixpoint union_terms (result_set : gset string) (terms : list string)
    : Exc (gset string) :=
  match terms with
  | [] => Ok result_set
  | term :: terms' =>
      term_docs ← _get_documents_for_term term;
      union_terms (result_set ∪ term_docs) terms'
  end.

Definition _handle_or (query : string) : Exc (gset string) :=
  let terms := strip <$> split " or " query in
  union_terms ∅ terms.

Definition _handle_not (query : string) : Exc (gset string) :=
  match split " not " query with
  | [part0; part1] =>
      let positive_term := strip part0 in
      let negative_term := strip part1 in
      positive_docs ← _get_documents_for_term positive_term;
      negative_docs ← _get_documents_for_term negative_term;
      Ok (positive_docs ∖ negative_docs)
  | _ => Ok ∅
  end.

Definition _handle_and_not (query : string) : Exc (gset string) :=
  match split " and not " query with
  | [part0; part1] =>
      let left_part := strip part0 in
      let negative_term := strip part1 in
      positive_docs ←
        (if contains " and " left_part then _handle_and left_part
         else _get_documents_for_term left_part);
      negative_docs ← _get_documents_for_term negative_term;
      Ok (positive_docs ∖ negative_docs)
  | _ => Ok ∅
  end.

Definition _parse_boolean_query (query : string) : Exc (gset string) :=
  let query := strip (lower query) in
  if contains " and not " query then _handle_and_not query
  else if contains " and " query then _handle_and query
  else if contains " or " query then _handle_or query
  else if contains " not " query then _handle_not query
  else _get_documents_for_term query.

(** The body of the [try] of [search_boolean]. *)
Definition search_boolean_body (query : string) (max_results : Z)
    : Exc (list string) :=
  let query := strip query in
  if decide (query = "") then Ok []
  else
    result_set ← _parse_boolean_query query;
    Ok (slice_to max_results (sorted result_set)).

(** [search_boolean] returns the list of results together with the lines
    it prints. *)
Definition search_boolean (query : string) (max_results : Z)
    : list string * list string :=
  match search_boolean_body query max_results with
  | Ok results => (results, [])
  | Raise e => ([], ["Error in Boolean search: " +:+ e])
  end.

End Evaluator.

(** *** The query verifier *)

(** The issue strings of the report, by the format string that builds
    them: "Document {doc_id} missing required term: {term}", "... missing
    required terms: {list}", "... doesn't contain any required terms:
    {list}" and "... contains excluded term: {term}". *)
Inductive Issue :=
  | MissingRequiredTerm (doc_id term : string)
  | MissingRequiredTerms (doc_id : string) (terms : list string)
  | NoRequiredTerms (doc_id : string) (terms : list string)
  | ContainsExcludedTerm (doc_id term : string).

(** The dicts appended to ['document_analysis']: the one of
    [_verify_and_logic] and the one of [_verify_or_logic]. *)
Inductive DocAnalysis :=
  | AndAnalysis (doc_id : string) (required_terms found_terms missing_terms : list string)
  | OrAnalysis (doc_id : string) (any_of_terms found_terms : list string).

Record Verification := {
  query : string;
  total_results : nat;
  logic_correct : bool;
  issues : list Issue;
  document_analysis : list DocAnalysis
}.

(** [verification['logic_correct'] = False] followed by
    [verification['issues'].append(issue)] *)
Definition flag (verification : Verification) (issue : Issue) : Verification :=
  {| query := query verification;
     total_results := total_results verification;
     logic_correct := false;
     issues := issues verification ++ [issue];
     document_analysis := document_analysis verification |}.

(** [verification['document_analysis'].append(doc_analysis)] *)
Definition add_analysis (verification : Verification) (doc_analysis : DocAnalysis)
    : Verification :=
  {| query := query verification;
     total_results := total_results verification;
     logic_correct := logic_correct verification;
     issues := issues verification;
     document_analysis := document_analysis verification ++ [doc_analysis] |}.

Section Verifier.
Variable self : BooleanRetrieval.

(** The loop of [_verify_and_logic] over the terms. *)
Fixpoint verify_and_terms (doc_id : string) (terms found_terms missing_terms : list string)
    (verification : Verification)
    : Exc (list string * list string * Verification) :=
  match terms with
  | [] => Ok (found_terms, missing_terms, verification)
  | term :: terms' =>
      docs ← _get_documents_for_term self term;
      if decide (doc_id ∈ docs)
      then verify_and_terms doc_id terms' (found_terms ++ [term]) missing_terms
             verification
      else verify_and_terms doc_id terms' found_terms (missing_terms ++ [term])
             (flag verification (MissingRequiredTerm doc_id term))
  end.

Definition _verify_and_logic (query doc_id : string) (verification : Verification)
    : Exc Verification :=
  let terms := strip <$> split " and " query in
  '(found_terms, missing_terms, verification) ←
    verify_and_terms doc_id terms [] [] verification;
  Ok (add_analysis verification
        (AndAnalysis doc_id terms found_terms missing_terms)).

(** The loop of [_verify_or_logic] over the terms. *)
Fixpoint verify_or_terms (doc_id : string) (terms : list string) (found_any : bool)
    (found_terms : list string) : Exc (bool * list string) :=
  match terms with
  | [] => Ok (found_any, found_terms)
  | term :: terms' =>
      docs ← _get_documents_for_term self term;
      if decide (doc_id ∈ docs)
      then verify_or_terms doc_id terms' true (found_terms ++ [term])
      else verify_or_terms doc_id terms' found_any found_terms
  end.

Definition _verify_or_logic (query doc_id : string) (verification : Verification)
    : Exc Verification :=
  let terms := strip <$> split " or " query in
  '(found_any, found_terms) ← verify_or_terms doc_id terms false [];
  let verification :=
    if (found_any : bool) then verification
    else flag verification (NoRequiredTerms doc_id terms) in
  Ok (add_analysis verification (OrAnalysis doc_id terms found_terms)).

(** The loop of [_verify_and_not_logic] that collects [missing_positive]. *)
Fixpoint missing_positive_terms (doc_id : string) (positive_terms missing_positive : list string)
    : Exc (list string) :=
  match positive_terms with
  | [] => Ok missing_positive
  | term :: terms' =>
      docs ← _get_documents_for_term self term;
      if decide (doc_id ∉ docs)
      then missing_positive_terms doc_id terms' (missing_positive ++ [term])
      else missing_positive_terms doc_id terms' missing_positive
  end.

Definition _verify_and_not_logic (query doc_id : string) (verification : Verification)
    : Exc Verification :=
  match split " and not " query with
  | [part0; part1] =>
      let positive_part := strip part0 in
      let negative_term := strip part1 in
      verification ←
        (if contains " and " positive_part then
           let positive_terms := strip <$> split " and " positive_part in
           missing_positive ← missing_positive_terms doc_id positive_terms [];
           match missing_positive with
           | [] => Ok verification
           | _ => Ok (flag verification (MissingRequiredTerms doc_id missing_positive))
           end
         else
           docs ← _get_documents_for_term self positive_part;
           if decide (doc_id ∉ docs)
           then Ok (flag verification (MissingRequiredTerm doc_id positive_part))
           else Ok verification);
      docs ← _get_documents_for_term self negative_term;
      if decide (doc_id ∈ docs)
      then Ok (flag verification (ContainsExcludedTerm doc_id negative_term))
      else Ok verification
  | _ => Ok verification
  end.

Definition _verify_not_logic (query doc_id : string) (verification : Verification)
    : Exc Verification :=
  match split " not " query with
  | [part0; part1] =>
      let positive_term := strip part0 in
      let negative_term := strip part1 in
      docs ← _get_documents_for_term self positive_term;
      let verification :=
        if decide (doc_id ∉ docs)
        then flag verification (MissingRequiredTerm doc_id positive_term)
        else verification in
      docs ← _get_documents_for_term self negative_term;
      if decide (doc_id ∈ docs)
      then Ok (flag verification (ContainsExcludedTerm doc_id negative_term))
      else Ok verification
  | _ => Ok verification
  end.

(** One round of the loop of [verify_boolean_logic].  The stored content
    the loop looks up first is not used afterwards. *)
Definition verify_document (query_lower doc_id : string) (verification : Verification)
    : Exc Verification :=
  if contains " and not " query_lower
  then _verify_and_not_logic query_lower doc_id verification
  else if contains " and " query_lower
  then _verify_and_logic query_lower doc_id verification
  else if contains " or " query_lower
  then _verify_or_logic query_lower doc_id verification
  else if contains " not " query_lower
  then _verify_not_logic query_lower doc_id verification
  else Ok verification.

Fixpoint verify_results (query_lower : string) (results : list string)
    (verification : Verification) : Exc Verification :=
  match results with
  | [] => Ok verification
  | doc_id :: results' =>
      verification ← verify_document query_lower doc_id verification;
      verify_results query_lower results' verification
  end.

Definition verify_boolean_logic (query : string) (results : list string)
    : Exc Verification :=
  let verification :=
    {| query := query;
       total_results := length results;
       logic_correct := true;
       issues := [];
       document_analysis := [] |} in
  let query_lower := lower query in
  verify_results query_lower results verification.

End Verifier.

(** *** explain_boolean_query and run_test_queries *)

(** The line feed the explanations are joined with. *)
Definition newline : string := String (ascii_of_nat 10) EmptyString.

(** [parts[i]], raising [IndexError] out of range. *)
Definition part (parts : list string) (i : nat) : Exc string :=
  match item parts i with
  | Some p => Ok p
  | None => Raise "list index out of range"
  end.

Definition explain_boolean_query (self : BooleanRetrieval) (query : string)
    (results : list string) : Exc string :=
  match results with
  | [] => Ok (join newline ["No documents match the query."])
  | _ =>
      let query_lower := lower query in
      explanations ←
        (if contains " and not " query_lower then
           let parts := split " and not " query_lower in
           part0 ← part parts 0;
           part1 ← part parts 1;
           let positive_part := strip part0 in
           let negative_term := strip part1 in
           Ok ["Query requires documents with '" +:+ positive_part
               +:+ "' but NOT '" +:+ negative_term +:+ "'"]
         else if contains " and " query_lower then
           let terms := strip <$> split " and " query_lower in
           Ok ["Query requires ALL terms: " +:+ repr_list terms;
               "Documents must contain every specified term."]
         else if contains " or " query_lower then
           let terms := strip <$> split " or " query_lower in
           Ok ["Query requires ANY of the terms: " +:+ repr_list terms;
               "Documents need to contain at least one of the specified terms."]
         else if contains " not " query_lower then
           let parts := split " not " query_lower in
           part0 ← part parts 0;
           part1 ← part parts 1;
           let positive_term := strip part0 in
           let negative_term := strip part1 in
           Ok ["Query requires documents with '" +:+ positive_term
               +:+ "' but NOT '" +:+ negative_term +:+ "'"]
         else Ok []);
      Ok (join newline explanations)
  end.

(** The dicts [run_test_queries] collects. *)
Record QueryResult := {
  qr_query : string;
  qr_results : list string;
  qr_verification : Verification;
  qr_explanation : string
}.

Definition test_queries : list string :=
  ["dog AND cat"; "dog OR cat"; "dog AND NOT cat"; "dog OR short"; "rank OR night"].

(** The loop of [run_test_queries] over the queries; [search_boolean] is
    called with its default maximum. *)
Fixpoint run_queries (self : BooleanRetrieval) (queries : list string)
    (query_results : list QueryResult) : Exc (list QueryResult) :=
  match queries with
  | [] => Ok query_results
  | query :: queries' =>
      let results := (search_boolean self query 100).1 in
      verification ← verify_boolean_logic self query results;
      explanation ← explain_boolean_query self query results;
      run_queries self queries'
        (query_results ++
           [ {| qr_query := query;
                qr_results := results;
                qr_verification := verification;
                qr_explanation := explanation |} ])
  end.

Definition run_test_queries (self : BooleanRetrieval) : Exc (list QueryResult) :=
  run_queries self test_queries [].

(** [passed] and [total] of the summary [run_test_queries] prints. *)
Definition summary (query_results : list QueryResult) : nat * nat :=
  (length (filter (λ result, logic_correct (qr_verification result) = true)
             query_results),
   length query_results).

End Searcher.

(** ** The scenario of the specification

    Three documents, preprocessed by [preprocess_manual] as main.py does,
    stored, and read back by [build_inverted_index]. *)

Module Scenario.
Import Searcher.

(** Some members of NLTK's English stopword list. *)
Definition stop_words : gset string := {[ "the"; "and"; "or"; "not"; "a" ]}.

(** The Porter stem of the words of the scenario. *)
Definition stem (word : string) : string :=
  if decide (word = "lazy") then "lazi" else word.

Definition raw_documents : list (string * string) :=
  [("d1", "the quick brown dog"); ("d2", "the lazy cat"); ("d3", "dog and cat play")].

Definition stored_documents : list (string * string) :=
  (λ d, (d.1, Preprocessor.preprocess_manual stop_words stem d.2)) <$> raw_documents.

(** The term vector of a stored text: each token with its frequency. *)
Definition term_vector (text : string) : gmap string nat :=
  foldr (λ term v, <[term := S (default 0 (v !! term))]> v) ∅ (split_ws text).

Definition lookup_stored (collection_docid : string) : option string :=
  (λ found : nat * (string * string), found.2.2) <$>
    list_find (λ d : string * string, d.1 = collection_docid) stored_documents.

Definition reader : LuceneIndexReader :=
  {| stats_documents := Ok (length stored_documents);
     convert_internal_docid_to_collection_docid := λ i,
       match stored_documents !! i with
       | Some d => Ok d.1
       | None => Raise "docid out of range"
       end;
     doc := λ id,
       Ok ((λ text, {| contents := Some text |}) <$> lookup_stored id);
     get_document_vector := λ id, Ok (term_vector <$> lookup_stored id) |}.

Definition fresh : BooleanRetrieval :=
  {| index_reader := Some reader;
     inverted_index := ∅;
     documents := ∅;
     preprocess_text := λ term, Ok (Preprocessor.preprocess_text stop_words stem term) |}.

Definition retrieval : BooleanRetrieval :=
  match build_inverted_index fresh with
  | Ok self => self
  | Raise _ => fresh
  end.

(** The same object when the call of [preprocess_text] raises, as it does
    on a [DocumentPreprocessor] that has no such method. *)
Definition retrieval_raising : BooleanRetrieval :=
  {| index_reader := index_reader retrieval;
     inverted_index := inverted_index retrieval;
     documents := documents retrieval;
     preprocess_text := λ _,
       Raise "'DocumentPreprocessor' object has no attribute 'preprocess_text'" |}.

End Scenario.

(** ** The statements of the specification

    The notions the properties are stated with, and two auxiliary ones
    ([posts], [headspace]) used in their proofs. *)

Module Spec.
Import Searcher.

(** The operator families of a query. *)
Inductive Family := AndNot | And | Or | Not | SingleTerm.

(** The keywords in their priority order. *)
Definition keywords : list (string * Family) :=
  [(" and not ", AndNot); (" and ", And); (" or ", Or); (" not ", Not)].

(** The family of a lowercased query: the first keyword, in priority order,
    that occurs in it; a single term group when none does. *)
Definition family_of (q : string) : Family :=
  match list_find (λ k : string * Family, contains k.1 q = true) keywords with
  | Some (_, (_, family)) => family
  | None => SingleTerm
  end.

(** The handler of each family. *)
Definition resolve (self : BooleanRetrieval) (family : Family) (q : string)
    : Exc (gset string) :=
  match family with
  | AndNot => _handle_and_not self q
  | And => _handle_and self q
  | Or => _handle_or self q
  | Not => _handle_not self q
  | SingleTerm => _get_documents_for_term self q
  end.

(** AND_NOT as the specification words it: split once on the first
    occurrence, the left part resolved as an AND group when it contains
    the AND keyword and as a single term group otherwise, the result being
    the left resolution minus the resolution of the right part. *)
Definition and_not_split_once (self : BooleanRetrieval) (q : string)
    : Exc (gset string) :=
  match partition " and not " q with
  | Some (before, after) =>
      positive ←
        (if contains " and " before then _handle_and self before
         else _get_documents_for_term self before);
      negative ← _get_documents_for_term self after;
      Ok (positive ∖ negative)
  | None => _get_documents_for_term self q
  end.

(** [s] holds two occurrences of [sep] that do not overlap. *)
Definition two_separators (sep s : string) : Prop :=
  ∃ a b c, s = a +:+ sep +:+ b +:+ sep +:+ c.

(** The contract of the storage engine: for a document it serves, the term
    set it reports is the set of terms occurring in the stored content. *)
Definition honours_term_sets (reader : LuceneIndexReader) : Prop :=
  ∀ id d, doc reader id = Ok (Some d) →
    ∃ v, get_document_vector reader id = Ok v ∧
      ∀ T, T ∈ dom (default ∅ v) ↔ T ∈ split_ws (default "" (contents d)).

(** The object [self] with the normalizer of the specification as its
    [preprocess_text]. *)
Definition normalizing (self : BooleanRetrieval) (stop_words : gset string)
    (stem : string → string) : BooleanRetrieval :=
  {| index_reader := index_reader self;
     inverted_index := inverted_index self;
     documents := documents self;
     preprocess_text := λ term,
       Ok (Preprocessor.preprocess_text stop_words stem term) |}.

(** Round [i] of the index loop posts document [D] under term [T]: [D] is
    the collection id of [i], the engine serves the document, and [T] is a
    key of its term vector. *)
Definition posts (reader : LuceneIndexReader) (i : nat) (D T : string) : Prop :=
  convert_internal_docid_to_collection_docid reader i = Ok D ∧
  ∃ d v, doc reader D = Ok (Some d) ∧
         get_document_vector reader D = Ok (Some v) ∧ T ∈ dom v.

(** [s] starts with a whitespace character. *)
Definition headspace (s : string) : bool :=
  match s with
  | EmptyString => false
  | String c _ => isspace c
  end.

(** The verifier has taken the report [v] to the report [v']: the query
    and the number of results are kept, and either the flag and the issues
    are as they were, or the flag is down and issues were added. *)
Definition reported (v v' : Verification) : Prop :=
  query v' = query v ∧ total_results v' = total_results v ∧
  ((logic_correct v' = logic_correct v ∧ issues v' = issues v) ∨
   (logic_correct v' = false ∧
    ∃ extra, extra ≠ [] ∧ issues v' = issues v ++ extra)).

(** The lowercased queries on which the verifier checks the documents:
    those with a keyword, cut into exactly two parts when the keyword is
    NOT or AND NOT. *)
Definition verifier_checks (q : string) : bool :=
  match family_of q with
  | AndNot => bool_decide (length (split " and not " q) = 2)
  | And | Or => true
  | Not => bool_decide (length (split " not " q) = 2)
  | SingleTerm => false
  end.

(** Every character of [s] satisfies [p]. *)
Fixpoint all_chars (p : ascii → bool) (s : string) : bool :=
  match s with
  | EmptyString => true
  | String c s' => p c && all_chars p s'
  end.

(** The number of words that start in [s], the character before [s] being
    whitespace or not. *)
Fixpoint word_starts (after_space : bool) (s : string) : nat :=
  match s with
  | EmptyString => 0
  | String c s' =>
      if isspace c then word_starts true s'
      else (if after_space then 1 else 0) + word_starts false s'
  end.

(** A clean token: not empty, without whitespace, without punctuation, in
    lower case. *)
Definition token (w : string) : Prop :=
  w ≠ "" ∧
  all_chars (λ c, negb (isspace c)) w = true ∧
  all_chars (λ c, negb (Preprocessor.is_ascii_punctuation c)) w = true ∧
  lower w = w.

(** The dict [preprocess_documents] makes of a document. *)
Definition processed (process : string → string) (doc : gmap string string)
    : gmap string string :=
  <["id" := default "" (doc !! "id")]>
    (<["contents" := process (default "" (doc !! "contents"))]>
       (<["raw" := default "" (doc !! "contents")]> ∅)).

End Spec.

(** * Properties *)

Import Searcher Spec.

(** ** Facts on the string operations *)

Section PyStrFacts.

Lemma isspace_lower_char c : isspace (lower_char c) = isspace c.
Proof. destruct c as [[] [] [] [] [] [] [] []]; reflexivity. Qed.

Lemma lower_char_idem c : lower_char (lower_char c) = lower_char c.
Proof. destruct c as [[] [] [] [] [] [] [] []]; reflexivity. Qed.

Lemma lower_idem s : lower (lower s) = lower s.
Proof. induction s as [|c s IH]; simpl; [done|]. by rewrite lower_char_idem, IH. Qed.

Lemma lstrip_lower s : lstrip (lower s) = lower (lstrip s).
Proof.
  induction s as [|c s IH]; simpl; [done|].
  rewrite isspace_lower_char. by destruct (isspace c).
Qed.

Lemma rstrip_lower s : rstrip (lower s) = lower (rstrip s).
Proof.
  induction s as [|c s IH]; simpl; [done|].
  rewrite IH, isspace_lower_char.
  destruct (rstrip s); simpl; [by destruct (isspace c)|done].
Qed.

Lemma strip_lower s : strip (lower s) = lower (strip s).
Proof. unfold strip. by rewrite lstrip_lower, rstrip_lower. Qed.

Lemma headspace_lstrip s : headspace (lstrip s) = false.
Proof.
  induction s as [|c s IH]; simpl; [done|].
  destruct (isspace c) eqn:E; [done|]. simpl. done.
Qed.

Lemma lstrip_id s : headspace s = false → lstrip s = s.
Proof. destruct s as [|c s]; simpl; [done|]. by intros ->. Qed.

Lemma headspace_rstrip s : headspace s = false → headspace (rstrip s) = false.
Proof.
  destruct s as [|c s]; simpl; [done|]. intros E.
  destruct (rstrip s); simpl; rewrite ?E; done.
Qed.

Lemma rstrip_idem s : rstrip (rstrip s) = rstrip s.
Proof.
  induction s as [|c s IH]; simpl; [done|].
  destruct (rstrip s) as [|b r] eqn:E.
  - destruct (isspace c) eqn:Ec; simpl; [done|]. by rewrite Ec.
  - change (rstrip (String c (String b r))) with
      (match rstrip (String b r) with
       | EmptyString => if isspace c then EmptyString else String c EmptyString
       | r' => String c r'
       end).
    by rewrite IH.
Qed.

Lemma strip_idem s : strip (strip s) = strip s.
Proof.
  unfold strip.
  rewrite (lstrip_id (rstrip (lstrip s))).
  - apply rstrip_idem.
  - apply headspace_rstrip, headspace_lstrip.
Qed.

Lemma strip_lower_strip s : strip (lower (strip s)) = lower (strip s).
Proof. by rewrite strip_lower, strip_idem. Qed.

End PyStrFacts.

(** ** Facts on [partition], [contains] and [split] *)

Section SplitFacts.

Lemma app_assoc_str a b c : (a +:+ b) +:+ c = a +:+ b +:+ c.
Proof. induction a as [|x a IH]; simpl; [done|]. by rewrite IH. Qed.

Lemma length_app_str a b :
  String.length (a +:+ b) = String.length a + String.length b.
Proof. induction a as [|x a IH]; simpl; [done|]. by rewrite IH. Qed.

Lemma startswith_app p s : startswith p (p +:+ s) = true.
Proof. induction p as [|x p IH]; simpl; [done|]. by rewrite Ascii.eqb_refl. Qed.

Lemma startswith_skip p s :
  startswith p s = true → s = p +:+ skip (String.length p) s.
Proof.
  revert s. induction p as [|x p IH]; intros [|y s]; simpl; try done.
  destruct (Ascii.eqb_spec x y) as [->|]; [|done].
  intros H. f_equal. by apply IH.
Qed.

Lemma skip_app_length a s : skip (String.length a) (a +:+ s) = s.
Proof. induction a as [|x a IH]; simpl; [by destruct s|done]. Qed.

Lemma partition_app sep s l r :
  partition sep s = Some (l, r) → s = l +:+ sep +:+ r.
Proof.
  revert l r. induction s as [|c s IH]; intros l r; simpl.
  - destruct (startswith sep "") eqn:E; [|done].
    intros [= <- <-]. by apply startswith_skip in E.
  - destruct (startswith sep (String c s)) eqn:E.
    + intros [= <- <-]. by apply startswith_skip in E.
    + destruct (partition sep s) as [[l' r']|] eqn:P; [|done].
      intros [= <- <-]. simpl. f_equal. by apply IH.
Qed.

Lemma partition_None sep s : partition sep s = None ↔ contains sep s = false.
Proof.
  induction s as [|c s IH]; simpl.
  - destruct (startswith sep ""); simpl; split; congruence.
  - destruct (startswith sep (String c s)); simpl; [split; congruence|].
    rewrite <- IH. destruct (partition sep s) as [[??]|]; split; congruence.
Qed.

Lemma partition_Some sep s :
  contains sep s = true → ∃ l r, partition sep s = Some (l, r).
Proof.
  intros H. destruct (partition sep s) as [[l r]|] eqn:P; [eauto|].
  apply partition_None in P. congruence.
Qed.

Lemma contains_app sep a b : contains sep (a +:+ sep +:+ b) = true.
Proof.
  induction a as [|x a IH]; simpl.
  - destruct sep; simpl; [by destruct b|].
    by rewrite Ascii.eqb_refl, startswith_app.
  - rewrite IH. apply orb_true_r.
Qed.

(** The first occurrence is at or before any occurrence. *)
Lemma partition_first sep a t :
  ∃ l r, partition sep (a +:+ sep +:+ t) = Some (l, r) ∧
         String.length l ≤ String.length a ∧
         ∃ u, a +:+ sep = l +:+ sep +:+ u ∧ r = u +:+ t.
Proof.
  induction a as [|x a IH].
  - exists "", t. simpl. replace (partition sep (sep +:+ t)) with
      (Some ("", skip (String.length sep) (sep +:+ t))).
    + rewrite skip_app_length. split; [done|]. split; [done|].
      exists "". split; [|done]. clear. induction sep; simpl; congruence.
    + destruct sep; simpl; [by destruct t|].
      by rewrite Ascii.eqb_refl, startswith_app.
  - destruct IH as (l & r & P & Hl & u & Hu & Hr).
    change ((String x a) +:+ sep +:+ t) with (String x (a +:+ sep +:+ t)).
    simpl partition.
    destruct (startswith sep (String x (a +:+ sep +:+ t))) eqn:E.
    + eexists _, _. split; [done|]. split; [simpl; lia|].
      pose proof (startswith_skip _ _ E) as E'.
      (* the separator starts the text: what follows it ends with [sep +:+ t] *)
      assert (L : String.length sep ≤ String.length (String x a +:+ sep)).
      { rewrite length_app_str. lia. }
      clear P Hl Hu Hr l r u.
      assert (G : ∀ p s v w, startswith p (s +:+ w) = true →
                  String.length p ≤ String.length s →
                  s +:+ w = p +:+ v → ∃ u, s = p +:+ u ∧ v = u +:+ w).
      { clear. induction p as [|y p IH]; intros s v w H1 H2 H3.
        - exists s. simpl in *. by split.
        - destruct s as [|z s]; simpl in H2; [lia|].
          simpl in H1, H3. injection H3 as -> H3.
          rewrite Ascii.eqb_refl in H1.
          destruct (IH s v w H1 ltac:(lia) H3) as (u & -> & ->).
          by exists u. }
      destruct (G sep (String x a +:+ sep) (skip (String.length sep)
                  (String x (a +:+ sep +:+ t))) t) as (u & Hu & Hv).
      * by rewrite app_assoc_str.
      * done.
      * rewrite app_assoc_str. exact E'.
      * exists u. split; [simpl in *; done|done].
    + rewrite P. eexists _, _. split; [done|]. split; [simpl; lia|].
      exists u. split; [|done]. simpl. by rewrite Hu.
Qed.

Context (sep : string) (Hsep : sep ≠ "").

Lemma partition_shorter s l r :
  partition sep s = Some (l, r) → String.length r < String.length s.
Proof using Hsep.
  intros ->%partition_app. rewrite !length_app_str.
  destruct sep; [done|]. simpl. lia.
Qed.

Lemma split_fuel_enough n m s :
  String.length s ≤ n → String.length s ≤ m →
  split_fuel n sep s = split_fuel m sep s.
Proof using Hsep.
  revert m s. induction n as [|n IH]; intros m s Hn Hm.
  - destruct s; [|simpl in Hn; lia].
    destruct m; simpl; destruct sep; done.
  - destruct m as [|m].
    + destruct s; [|simpl in Hm; lia]. simpl; destruct sep; done.
    + simpl. destruct (partition sep s) as [[l r]|] eqn:P; [|done].
      apply partition_shorter in P. f_equal. apply IH; lia.
Qed.

Lemma split_eq s :
  split sep s =
    match partition sep s with
    | None => [s]
    | Some (l, r) => l :: split sep r
    end.
Proof using Hsep.
  unfold split. destruct (String.length s) as [|n] eqn:E.
  - destruct s; [|done]. simpl. destruct sep; done.
  - simpl. destruct (partition sep s) as [[l r]|] eqn:P; [|done].
    f_equal. apply partition_shorter in P. apply split_fuel_enough; lia.
Qed.

Lemma split_no_sep s : contains sep s = false → split sep s = [s].
Proof using Hsep. intros H%partition_None. by rewrite split_eq, H. Qed.

Lemma split_length_contains s :
  contains sep s = true ↔ 2 ≤ length (split sep s).
Proof using Hsep.
  rewrite split_eq. destruct (partition sep s) as [[l r]|] eqn:P.
  - split; [intros _|intros _].
    + rewrite split_eq. simpl. destruct (partition sep r) as [[??]|]; simpl; lia.
    + destruct (contains sep s) eqn:C; [done|].
      apply partition_None in C. congruence.
  - apply partition_None in P. rewrite P. simpl. split; [done|lia].
Qed.

(** Exactly two parts: the separator occurs once, and the parts are the
    text before and after it. *)
Lemma split_two s l r :
  split sep s = [l; r] ↔ partition sep s = Some (l, r) ∧ contains sep r = false.
Proof using Hsep.
  rewrite split_eq. destruct (partition sep s) as [[l' r']|] eqn:P.
  - rewrite split_eq. destruct (partition sep r') as [[l2 r2]|] eqn:P2.
    + split.
      * intros [= -> -> E]. rewrite split_eq in E.
        by destruct (partition sep r2) as [[??]|].
      * intros [[= -> ->] C]. apply partition_None in C. congruence.
    + apply partition_None in P2. split.
      * by intros [= -> ->].
      * by intros [[= -> ->] _].
  - split; [done|]. by intros [? _].
Qed.

(** Two occurrences that do not overlap give at least three parts. *)
Lemma split_two_separators s : two_separators sep s → 2 < length (split sep s).
Proof using Hsep.
  intros (a & b & c & ->).
  destruct (partition_first sep a (b +:+ sep +:+ c)) as (l & r & P & _ & u & _ & ->).
  rewrite split_eq, P. simpl.
  assert (C : contains sep (u +:+ b +:+ sep +:+ c) = true).
  { rewrite <- app_assoc_str. apply contains_app. }
  apply split_length_contains in C. lia.
Qed.

(** More than two parts come only from two such occurrences. *)
Lemma split_parts_two_separators s :
  2 < length (split sep s) → two_separators sep s.
Proof using Hsep.
  rewrite split_eq. destruct (partition sep s) as [[l r]|] eqn:P; [|simpl; lia].
  simpl. intros H.
  assert (C : contains sep r = true) by (apply split_length_contains; lia).
  destruct (partition_Some _ _ C) as (l2 & r2 & P2).
  exists l, l2, r2. apply partition_app in P as ->.
  by apply partition_app in P2 as ->.
Qed.

End SplitFacts.

(** ** Facts on [sorted] and [slice_to] *)

Section SortedFacts.

Lemma sorted_StronglySorted (s : gset string) : StronglySorted String.le (sorted s).
Proof. unfold sorted. apply StronglySorted_merge_sort; apply _. Qed.

Lemma sorted_Permutation (s : gset string) : sorted s ≡ₚ elements s.
Proof. apply merge_sort_Permutation. Qed.

Lemma sorted_NoDup (s : gset string) : NoDup (sorted s).
Proof. rewrite sorted_Permutation. apply NoDup_elements. Qed.

Lemma elem_of_sorted (s : gset string) x : x ∈ sorted s ↔ x ∈ s.
Proof. rewrite sorted_Permutation. apply elem_of_elements. Qed.

Lemma sorted_empty : sorted ∅ = [].
Proof. unfold sorted. by rewrite elements_empty. Qed.

Lemma slice_to_take {A} (stop : Z) (l : list A) : ∃ n, slice_to stop l = take n l.
Proof. unfold slice_to. destruct (0 <=? stop)%Z; eauto. Qed.

Lemma slice_to_nil {A} (stop : Z) : slice_to stop (@nil A) = [].
Proof. destruct (slice_to_take stop (@nil A)) as [n ->]. by destruct n. Qed.

Lemma slice_to_length {A} (stop : Z) (l : list A) :
  (0 ≤ stop)%Z → (Z.of_nat (length (slice_to stop l)) ≤ stop)%Z.
Proof.
  intros H. unfold slice_to.
  destruct (Z.leb_spec 0 stop); [|lia]. rewrite length_take. lia.
Qed.

Lemma slice_to_elem_of {A} (stop : Z) (l : list A) x : x ∈ slice_to stop l → x ∈ l.
Proof.
  destruct (slice_to_take stop l) as [n ->]. intros H.
  eapply elem_of_sublist; [exact H|apply sublist_take].
Qed.

Lemma slice_to_sorted (stop : Z) (s : gset string) :
  StronglySorted String.le (slice_to stop (sorted s)) ∧
  NoDup (slice_to stop (sorted s)).
Proof.
  destruct (slice_to_take stop (sorted s)) as [n ->]. split.
  - apply (StronglySorted_app_1_l _ _ (drop n (sorted s))).
    rewrite take_drop. apply sorted_StronglySorted.
  - eapply sublist_NoDup; [apply sorted_NoDup|apply sublist_take].
Qed.

End SortedFacts.

(** ** The query evaluator *)

Section EvaluatorFacts.
Variable self : BooleanRetrieval.

Lemma family_of_priority q :
  family_of q =
    if contains " and not " q then AndNot
    else if contains " and " q then And
    else if contains " or " q then Or
    else if contains " not " q then Not
    else SingleTerm.
Proof.
  unfold family_of, keywords. cbn.
  destruct (contains " and not " q); [done|].
  destruct (contains " and " q); [done|].
  destruct (contains " or " q); [done|].
  by destruct (contains " not " q).
Qed.

Lemma parse_resolve query :
  _parse_boolean_query self query =
    resolve self (family_of (strip (lower query))) (strip (lower query)).
Proof.
  unfold _parse_boolean_query. rewrite family_of_priority.
  by repeat (destruct (contains _ _)).
Qed.

Lemma search_boolean_body_eq query m :
  search_boolean_body self query m =
    if decide (strip query = "") then Ok []
    else
      result_set ← _parse_boolean_query self (strip query);
      Ok (slice_to m (sorted result_set)).
Proof. done. Qed.

Lemma strip_nonblank query : lower (strip query) ≠ "" → strip query ≠ "".
Proof. by intros H E; rewrite E in H. Qed.

Lemma contains_nonempty sep s : sep ≠ "" → contains sep s = true → s ≠ "".
Proof. intros Hsep H ->. by destruct sep. Qed.

(** A query that a non-empty separator cuts into more than two parts, in
    one of the two handlers that want exactly two, evaluates to nothing. *)
Lemma handle_not_parts q :
  2 < length (split " not " q) → _handle_not self q = Ok ∅.
Proof.
  unfold _handle_not. intros H.
  destruct (split " not " q) as [|? [|? [|? ?]]]; simpl in H; done || lia.
Qed.

Lemma handle_and_not_parts q :
  2 < length (split " and not " q) → _handle_and_not self q = Ok ∅.
Proof.
  unfold _handle_and_not. intros H.
  destruct (split " and not " q) as [|? [|? [|? ?]]]; simpl in H; done || lia.
Qed.

Lemma search_boolean_empty_set query m :
  strip query ≠ "" →
  _parse_boolean_query self (strip query) = Ok ∅ →
  search_boolean self query m = ([], []).
Proof.
  intros Hq Hp. unfold search_boolean. rewrite search_boolean_body_eq.
  rewrite decide_False by done. rewrite Hp. cbn.
  by rewrite sorted_empty, slice_to_nil.
Qed.

(** When [preprocess_text] raises on every term, as it does on an object
    without that method, every handler raises or returns the empty set,
    and [search_boolean] returns the empty list for every query. *)
Lemma search_boolean_preprocess_raises e query m :
  (∀ term, preprocess_text self term = Raise e) →
  (search_boolean self query m).1 = [].
Proof.
  intros Hp.
  assert (G : ∀ term, _get_documents_for_term self term = Raise e).
  { intros term. unfold _get_documents_for_term. by rewrite Hp. }
  assert (P : ∀ q, _parse_boolean_query self q = Ok ∅ ∨
                   _parse_boolean_query self q = Raise e).
  { intros q. unfold _parse_boolean_query.
    destruct (contains " and not " _).
    { unfold _handle_and_not.
      destruct (split _ _) as [|? [|? [|? ?]]]; try by left.
      right. destruct (contains _ _); [|by rewrite !G].
      unfold _handle_and. destruct (strip <$> _); [|by rewrite !G].
      cbn. by rewrite !G. }
    destruct (contains " and " _).
    { unfold _handle_and. destruct (strip <$> _); [by left|]. right. by rewrite !G. }
    destruct (contains " or " _).
    { unfold _handle_or. destruct (strip <$> _); [by left|]. right. cbn. by rewrite !G. }
    destruct (contains " not " _).
    { unfold _handle_not.
      destruct (split _ _) as [|? [|? [|? ?]]]; try by left.
      right. by rewrite !G. }
    right. apply G. }
  unfold search_boolean. rewrite search_boolean_body_eq.
  case_decide; [done|].
  destruct (P (strip query)) as [-> | ->]; [|done].
  cbn. by rewrite sorted_empty, slice_to_nil.
Qed.

End EvaluatorFacts.

(** C1: for every query the evaluator resolves exactly one operator family,
    the first in the priority order AND NOT, AND, OR, NOT whose keyword
    occurs in the lowercased (trimmed) query, and the whole trimmed query as
    a single term group when none occurs.  The choice does not depend on
    the case of the query. *)
Theorem operator_family_priority (self : BooleanRetrieval) (query : string) (m : Z) :
  let q := lower (strip query) in
  _parse_boolean_query self (strip query) = resolve self (family_of q) q
  ∧ search_boolean_body self query m =
      (if decide (strip query = "") then Ok []
       else result_set ← resolve self (family_of q) q;
            Ok (slice_to m (sorted result_set)))
  ∧ family_of q =
      (if contains " and not " q then AndNot
       else if contains " and " q then And
       else if contains " or " q then Or
       else if contains " not " q then Not
       else SingleTerm)
  ∧ _parse_boolean_query self (lower query) = _parse_boolean_query self query.
Proof.
  intros q. assert (E : _parse_boolean_query self (strip query)
                        = resolve self (family_of q) q).
  { rewrite parse_resolve. unfold q. by rewrite strip_lower_strip. }
  split; [done|]. split.
  - rewrite search_boolean_body_eq. by rewrite E.
  - split; [apply family_of_priority|].
    unfold _parse_boolean_query. by rewrite lower_idem.
Qed.

(** C4: for every query and every maximum the list returned by
    [search_boolean] is in ascending code-point order and has no duplicate,
    and for every maximum (a number of documents, so not negative) its
    length is at most the maximum. *)
Theorem search_boolean_sorted_bounded (self : BooleanRetrieval) (query : string) (m : Z) :
  let results := (search_boolean self query m).1 in
  StronglySorted String.le results ∧ NoDup results ∧
  ((0 ≤ m)%Z → (Z.of_nat (length results) ≤ m)%Z).
Proof.
  cbn zeta. unfold search_boolean. rewrite search_boolean_body_eq.
  case_decide as Hq; cbn.
  { split; [constructor|]. split; [constructor|]. cbn. lia. }
  destruct (_parse_boolean_query self (strip query)) as [result_set|e]; cbn.
  - destruct (slice_to_sorted m result_set) as [H1 H2].
    split; [done|]. split; [done|]. apply slice_to_length.
  - split; [constructor|]. split; [constructor|]. cbn. lia.
Qed.

Lemma search_boolean_sorted_bounded_witness :
  (0 ≤ 2)%Z ∧
  (search_boolean Scenario.retrieval "dog OR cat" 2).1 = ["d1"; "d2"] ∧
  (Z.of_nat (length (search_boolean Scenario.retrieval "dog OR cat" 2).1) ≤ 2)%Z.
Proof.
  split; [lia|]. split; [vm_compute; reflexivity|].
  apply (search_boolean_sorted_bounded Scenario.retrieval "dog OR cat" 2). lia.
Defined.

(** C5: [search_boolean] returns for every input; a blank query gives the
    empty result and prints nothing; an exception raised while the query is
    evaluated gives the empty result and the printed error line. *)
Theorem search_boolean_never_raises (self : BooleanRetrieval) (query : string) (m : Z) :
  ∃ results printed,
    search_boolean self query m = (results, printed) ∧
    (strip query = "" → results = [] ∧ printed = []) ∧
    (∀ e, search_boolean_body self query m = Raise e →
       results = [] ∧ printed = ["Error in Boolean search: " +:+ e]) ∧
    (∀ e, strip query ≠ "" → _parse_boolean_query self (strip query) = Raise e →
       search_boolean_body self query m = Raise e).
Proof.
  unfold search_boolean. rewrite search_boolean_body_eq.
  case_decide as Hq.
  - exists [], []. repeat split; done.
  - destruct (_parse_boolean_query self (strip query)) as [result_set|e0]; cbn.
    + eexists _, _. split; [done|]. repeat split; done.
    + exists [], ["Error in Boolean search: " +:+ e0].
      split; [done|]. split; [done|]. split.
      * by intros e [= ->].
      * by intros e _ [= ->].
Qed.

Lemma search_boolean_never_raises_witness :
  search_boolean Scenario.retrieval "   " 100 = ([], []) ∧
  search_boolean Scenario.retrieval_raising "dog AND cat" 100 =
    ([], ["Error in Boolean search: 'DocumentPreprocessor' object has no attribute 'preprocess_text'"]).
Proof.
  split.
  - destruct (search_boolean_never_raises Scenario.retrieval "   " 100)
      as (results & printed & -> & H & _).
    destruct H as [-> ->]; reflexivity.
  - destruct (search_boolean_never_raises Scenario.retrieval_raising "dog AND cat" 100)
      as (results & printed & -> & _ & H & _).
    destruct (H "'DocumentPreprocessor' object has no attribute 'preprocess_text'")
      as [-> ->]; reflexivity.
Defined.

(** C6: a query whose lowercased, trimmed form holds none of the keywords
    AND NOT, AND and OR, and holds the NOT keyword as a separator more than
    once, evaluates to the empty result, and no error is reported. *)
Theorem two_not_separators_empty (self : BooleanRetrieval) (query : string) (m : Z) :
  let q := lower (strip query) in
  contains " and not " q = false →
  contains " and " q = false →
  contains " or " q = false →
  two_separators " not " q →
  search_boolean self query m = ([], []) ∧
  search_boolean_body self query m = Ok [].
Proof.
  intros q H1 H2 H3 H4.
  apply (split_two_separators " not ") in H4; [|done].
  assert (C : contains " not " q = true).
  { apply (split_length_contains " not "); [done|lia]. }
  assert (Hq : strip query ≠ "").
  { apply strip_nonblank. by apply (contains_nonempty " not "). }
  assert (P : _parse_boolean_query self (strip query) = Ok ∅).
  { rewrite parse_resolve, strip_lower_strip, family_of_priority. fold q.
    rewrite H1, H2, H3, C. by apply handle_not_parts. }
  split; [by apply search_boolean_empty_set|].
  rewrite search_boolean_body_eq, decide_False by done. rewrite P. cbn.
  by rewrite sorted_empty, slice_to_nil.
Qed.

Lemma two_not_separators_empty_witness :
  two_separators " not " (lower (strip "Dog NOT cat NOT play")) ∧
  search_boolean Scenario.retrieval "Dog NOT cat NOT play" 100 = ([], []).
Proof.
  assert (H : two_separators " not " (lower (strip "Dog NOT cat NOT play"))).
  { by exists "dog", "cat", "play". }
  split; [exact H|].
  apply (two_not_separators_empty Scenario.retrieval "Dog NOT cat NOT play" 100);
    [reflexivity..|exact H].
Defined.

(** C10: a query whose lowercased, trimmed form holds the AND NOT keyword
    at more than one place, so that splitting on it gives more than two
    parts, evaluates to the empty list. *)
Theorem two_and_not_separators_empty (self : BooleanRetrieval) (query : string) (m : Z) :
  two_separators " and not " (lower (strip query)) →
  2 < length (split " and not " (lower (strip query))) ∧
  _handle_and_not self (lower (strip query)) = Ok ∅ ∧
  search_boolean self query m = ([], []).
Proof.
  intros H. apply (split_two_separators " and not ") in H; [|done].
  split; [done|]. split; [by apply handle_and_not_parts|].
  assert (C : contains " and not " (lower (strip query)) = true).
  { apply (split_length_contains " and not "); [done|lia]. }
  apply search_boolean_empty_set.
  - apply strip_nonblank. by apply (contains_nonempty " and not ").
  - rewrite parse_resolve, strip_lower_strip, family_of_priority, C.
    by apply handle_and_not_parts.
Qed.

Lemma two_and_not_separators_empty_witness :
  two_separators " and not " (lower (strip "dog AND NOT cat AND NOT bird")) ∧
  search_boolean Scenario.retrieval "dog AND NOT cat AND NOT bird" 100 = ([], []).
Proof.
  assert (H : two_separators " and not " (lower (strip "dog AND NOT cat AND NOT bird"))).
  { by exists "dog", "cat", "bird". }
  split; [exact H|].
  apply (two_and_not_separators_empty Scenario.retrieval
           "dog AND NOT cat AND NOT bird" 100 H).
Defined.

Lemma get_documents_strip (self : BooleanRetrieval) (term : string) :
  _get_documents_for_term self (strip term) = _get_documents_for_term self term.
Proof. unfold _get_documents_for_term. by rewrite strip_idem. Qed.

(** C3 (as amended): when the AND NOT keyword cuts the lowercased, trimmed
    query into exactly two parts, the parts are the text before and after
    its first occurrence, the keyword does not occur again, the trimmed
    left part is resolved as an AND group when it contains the AND keyword
    and as a single term group otherwise, and the result is that resolution
    minus the term-group resolution of the right part. *)
Theorem and_not_single_separator (self : BooleanRetrieval)
    (query before after : string) :
  split " and not " (lower (strip query)) = [before; after] →
  partition " and not " (lower (strip query)) = Some (before, after) ∧
  lower (strip query) = before +:+ " and not " +:+ after ∧
  contains " and not " after = false ∧
  _parse_boolean_query self (strip query) =
    (positive ←
       (if contains " and " (strip before) then _handle_and self (strip before)
        else _get_documents_for_term self (strip before));
     negative ← _get_documents_for_term self after;
     Ok (positive ∖ negative)).
Proof.
  intros H.
  pose proof H as [P C]%(split_two " and not "); [|done].
  split; [done|]. split; [by apply partition_app|]. split; [done|].
  assert (C' : contains " and not " (lower (strip query)) = true).
  { apply (split_length_contains " and not "); [done|]. by rewrite H. }
  rewrite parse_resolve, strip_lower_strip, family_of_priority, C'.
  cbn [resolve]. unfold _handle_and_not. rewrite H.
  by rewrite (get_documents_strip self after).
Qed.

Lemma and_not_single_separator_witness :
  split " and not " (lower (strip "dog AND play AND NOT quick")) = ["dog and play"; "quick"] ∧
  _parse_boolean_query Scenario.retrieval (strip "dog AND play AND NOT quick")
    = Ok {[ "d3" ]}.
Proof.
  split; [reflexivity|].
  destruct (and_not_single_separator Scenario.retrieval
              "dog AND play AND NOT quick" "dog and play" "quick")
    as (_ & _ & _ & ->); [reflexivity|].
  vm_compute. reflexivity.
Defined.

(** C3 as stated fails when the keyword occurs twice: splitting once at the
    first occurrence would resolve the query below to d1, and the
    evaluator resolves it to nothing. *)
Lemma and_not_split_once_refuted :
  ¬ ∀ (self : BooleanRetrieval) (query : string),
      contains " and not " (lower query) = true →
      _parse_boolean_query self query = and_not_split_once self (strip (lower query)).
Proof.
  intros H.
  specialize (H Scenario.retrieval "dog AND NOT cat AND NOT bird" eq_refl).
  assert (E1 : _parse_boolean_query Scenario.retrieval "dog AND NOT cat AND NOT bird"
               = Ok ∅) by (vm_compute; reflexivity).
  assert (E2 : and_not_split_once Scenario.retrieval
                 (strip (lower "dog AND NOT cat AND NOT bird")) = Ok {[ "d1" ]})
    by (vm_compute; reflexivity).
  rewrite E1, E2 in H.
  assert (D : (∅ : gset string) = {[ "d1" ]}) by congruence.
  set_solver.
Qed.

(** ** The normalizer *)

Section NormalizerFacts.

Lemma punctuation_codes c :
  mem_char c Preprocessor.punctuation = Preprocessor.is_ascii_punctuation c.
Proof. destruct c as [[] [] [] [] [] [] [] []]; reflexivity. Qed.

Lemma filter_chars_ext (f g : ascii → bool) s :
  (∀ c, f c = g c) → filter_chars f s = filter_chars g s.
Proof.
  intros H. induction s as [|c s IH]; simpl; [done|]. by rewrite H, IH.
Qed.

Lemma lower_filter_chars f s : lower s = s → lower (filter_chars f s) = filter_chars f s.
Proof.
  induction s as [|c s IH]; simpl; [done|].
  intros [= Hc Hs]. destruct (f c); simpl; [|by apply IH].
  by rewrite Hc, IH.
Qed.

Lemma split_ws_head c s :
  isspace c = false → ∃ w ws, split_ws (String c s) = String c w :: ws.
Proof.
  intros Hc. simpl. rewrite Hc. destruct s as [|c' s']; [by eexists _, _|].
  destruct (isspace c'); [by eexists _, _|].
  destruct (split_ws (String c' s')); by eexists _, _.
Qed.

Lemma join_cons sep c w ws :
  join sep (String c w :: ws) = String c (join sep (w :: ws)).
Proof. by destruct ws. Qed.

Lemma split_ws_lstrip s : split_ws (lstrip s) = split_ws s.
Proof.
  induction s as [|c s IH]; [done|].
  simpl lstrip. destruct (isspace c) eqn:E; [|done].
  rewrite IH. simpl. by rewrite E.
Qed.

Lemma collapse_runs_cons c s :
  Preprocessor.collapse_runs (String c s) =
    if isspace c then
      match s with
      | "" => " "
      | String c' _ =>
          if isspace c' then Preprocessor.collapse_runs s
          else String " " (Preprocessor.collapse_runs s)
      end
    else String c (Preprocessor.collapse_runs s).
Proof. done. Qed.

Lemma lstrip_cons c s : lstrip (String c s) = if isspace c then lstrip s else String c s.
Proof. done. Qed.

Lemma rstrip_cons c s :
  rstrip (String c s) =
    match rstrip s with
    | "" => if isspace c then "" else String c ""
    | r => String c r
    end.
Proof. done. Qed.

Lemma split_ws_cons c s :
  split_ws (String c s) =
    if isspace c then split_ws s
    else match s with
         | "" => [String c ""]
         | String c' _ =>
             if isspace c' then String c "" :: split_ws s
             else match split_ws s with
                  | w :: ws => String c w :: ws
                  | [] => [String c ""]
                  end
         end.
Proof. done. Qed.

Lemma lstrip_collapse_runs s :
  lstrip (Preprocessor.collapse_runs s) = Preprocessor.collapse_runs (lstrip s).
Proof.
  induction s as [|c s IH]; [done|].
  rewrite collapse_runs_cons, (lstrip_cons c s).
  destruct (isspace c) eqn:E.
  - destruct s as [|c' s']; [done|].
    destruct (isspace c') eqn:E'; [exact IH|].
    rewrite lstrip_cons. exact IH.
  - by rewrite lstrip_cons, collapse_runs_cons, E.
Qed.

Lemma rstrip_collapse_runs s :
  rstrip (Preprocessor.collapse_runs s) =
    if headspace s then
      match split_ws s with
      | [] => ""
      | ws => " " +:+ join " " ws
      end
    else join " " (split_ws s).
Proof.
  induction s as [|c s IH]; [done|].
  rewrite collapse_runs_cons, split_ws_cons. unfold headspace at 1.
  destruct (isspace c) eqn:E.
  - (* a whitespace character *)
    destruct s as [|c' s']; [done|].
    unfold headspace in IH.
    destruct (isspace c') eqn:E'; [exact IH|].
    rewrite rstrip_cons, IH.
    destruct (split_ws_head c' s' E') as (w & ws & ->).
    by rewrite join_cons.
  - (* a character of a word *)
    rewrite rstrip_cons, IH.
    destruct s as [|c' s']; [by rewrite E|].
    unfold headspace.
    destruct (isspace c') eqn:E'.
    + destruct (split_ws (String c' s')) as [|w ws]; [by rewrite E|done].
    + destruct (split_ws_head c' s' E') as (w & ws & ->).
      by rewrite !join_cons.
Qed.

(** Collapsing the runs of whitespace and trimming is what
    [' '.join(text.split())] does. *)
Lemma clean_whitespace_collapse s :
  Preprocessor.clean_whitespace s = strip (Preprocessor.collapse_runs s).
Proof.
  unfold strip, Preprocessor.clean_whitespace.
  rewrite lstrip_collapse_runs, rstrip_collapse_runs, headspace_lstrip.
  by rewrite split_ws_lstrip.
Qed.

Lemma lower_split_ws s w : lower s = s → w ∈ split_ws s → lower w = w.
Proof.
  revert w. induction s as [|c s IH]; intros w Hs Hw; [by inv Hw|].
  simpl in Hs. injection Hs as Hc Hs.
  simpl in Hw. destruct (isspace c); [by apply IH|].
  destruct s as [|c' s'].
  { apply list_elem_of_singleton in Hw as ->. simpl. by rewrite Hc. }
  destruct (isspace c').
  { apply elem_of_cons in Hw as [->|Hw]; [simpl; by rewrite Hc|by apply IH]. }
  destruct (split_ws (String c' s')) as [|w' ws] eqn:W.
  { apply list_elem_of_singleton in Hw as ->. simpl. by rewrite Hc. }
  apply elem_of_cons in Hw as [->|Hw].
  - simpl. rewrite Hc. f_equal. apply IH; [done|]. by left.
  - apply IH; [done|]. by right.
Qed.

Lemma lower_join l : (∀ w, w ∈ l → lower w = w) → lower (join " " l) = join " " l.
Proof.
  assert (A : ∀ a b, lower (a +:+ b) = lower a +:+ lower b).
  { intros a b. induction a as [|x a IH]; simpl; [done|]. by rewrite IH. }
  induction l as [|w l IH]; intros H; [done|].
  destruct l as [|w' l'].
  - simpl. apply H. by left.
  - change (join " " (w :: w' :: l')) with (w +:+ " " +:+ join " " (w' :: l')).
    rewrite !A, IH, (H w); [done|by left|].
    intros v Hv. apply H. by right.
Qed.

Lemma filter_ext_elem {A} (P Q : A → Prop) `{∀ x, Decision (P x)}
    `{∀ x, Decision (Q x)} (l : list A) :
  (∀ x, x ∈ l → (P x ↔ Q x)) → filter P l = filter Q l.
Proof.
  induction l as [|x l IH]; intros HPQ; [done|].
  rewrite !filter_cons.
  assert (E : filter P l = filter Q l).
  { apply IH. intros y Hy. apply HPQ. by right. }
  assert (HP : P x ↔ Q x) by (apply HPQ; by left).
  destruct (decide (P x)) as [p|p], (decide (Q x)) as [q|q];
    rewrite ?E; try done; tauto.
Qed.

(** The string [preprocess_manual] returns is the join of the tokens of
    the normalizer. *)
Lemma preprocess_manual_tokens (stop_words : gset string) (stem : string → string)
    (text : string) :
  Preprocessor.preprocess_manual stop_words stem text =
    join " " (Preprocessor.preprocess_text stop_words stem text).
Proof.
  unfold Preprocessor.preprocess_manual, Preprocessor.preprocess_text,
    Preprocessor.to_lowercase, Preprocessor.remove_punctuation,
    Preprocessor.stem_words, Preprocessor.remove_stopwords.
  cbn zeta.
  rewrite (filter_chars_ext _ (λ c, negb (Preprocessor.is_ascii_punctuation c)))
    by (intros c; by rewrite punctuation_codes).
  rewrite <- clean_whitespace_collapse.
  set (x := filter_chars _ (lower text)).
  f_equal. f_equal. apply filter_ext_elem. intros w Hw.
  assert (Hx : lower x = x) by apply lower_filter_chars, lower_idem.
  assert (Hc : lower (Preprocessor.clean_whitespace x) = Preprocessor.clean_whitespace x).
  { apply lower_join. intros v Hv. by apply (lower_split_ws x). }
  by rewrite (lower_split_ws _ w Hc Hw).
Qed.

End NormalizerFacts.

(** C7: [preprocess_manual] applies, in this order, lowercasing, removal of
    every ASCII punctuation character (replaced with nothing), collapsing
    of whitespace runs with trimming, splitting on whitespace, removal of
    the stopwords and stemming of each remaining token; it returns the
    tokens joined by single spaces.  Empty input yields no token. *)
Theorem preprocess_manual_pipeline (stop_words : gset string)
    (stem : string → string) (text : string) :
  Preprocessor.preprocess_manual stop_words stem text =
    join " " (Preprocessor.preprocess_text stop_words stem text)
  ∧ Preprocessor.preprocess_text stop_words stem text =
      stem <$> filter (λ token, token ∉ stop_words)
                 (split_ws (strip (Preprocessor.collapse_runs
                    (filter_chars (λ c, negb (Preprocessor.is_ascii_punctuation c))
                       (lower text)))))
  ∧ Preprocessor.remove_punctuation "don't" = "dont"
  ∧ Preprocessor.preprocess_text stop_words stem "" = []
  ∧ Preprocessor.preprocess_manual stop_words stem "" = "".
Proof. split; [apply preprocess_manual_tokens|by repeat split]. Qed.

Example preprocess_manual_scenario :
  Preprocessor.preprocess_manual Scenario.stop_words Scenario.stem
    "The  LAZY cat, and   the dog!" = "lazi cat dog".
Proof. vm_compute. reflexivity. Qed.

(** ** Term-group resolution *)

Section TermGroupFacts.
Variable self : BooleanRetrieval.

Lemma union_postings_elem_of (tokens : list string) (acc : gset string) d :
  d ∈ foldl (λ (result_docs : gset string) token,
             match inverted_index self !! token with
             | Some docs => result_docs ∪ docs
             | None => result_docs
             end) acc tokens
  ↔ d ∈ acc ∨ ∃ token docs,
      token ∈ tokens ∧ inverted_index self !! token = Some docs ∧ d ∈ docs.
Proof.
  revert acc. induction tokens as [|t tokens IH]; intros acc; simpl.
  - split; [by left|]. intros [?|(?&?&H&_)]; [done|by inv H].
  - rewrite IH. split.
    + intros [H|(token & docs & H1 & H2 & H3)].
      * destruct (inverted_index self !! t) as [docs|] eqn:E; [|by left].
        apply elem_of_union in H as [H|H]; [by left|].
        right. exists t, docs. split; [by left|done].
      * right. exists token, docs. split; [by right|done].
    + intros [H|(token & docs & H1 & H2 & H3)].
      * left. destruct (inverted_index self !! t); [|done].
        apply elem_of_union. by left.
      * apply elem_of_cons in H1 as [->|H1].
        -- left. rewrite H2. apply elem_of_union. by right.
        -- right. by exists token, docs.
Qed.

(** When the preprocessor returns tokens, the term group resolves to the
    union of the postings of the tokens that are in the index. *)
Lemma get_documents_tokens (term : string) (tokens : list string) :
  preprocess_text self (lower (strip term)) = Ok tokens →
  ∃ result, _get_documents_for_term self term = Ok result ∧
    ∀ d, d ∈ result ↔ ∃ token docs,
      token ∈ tokens ∧ inverted_index self !! token = Some docs ∧ d ∈ docs.
Proof.
  intros H. unfold _get_documents_for_term. rewrite H. cbn.
  eexists. split; [done|]. intros d. rewrite union_postings_elem_of.
  split; [intros [?|?]; [set_solver|done]|by right].
Qed.

(** When the preprocessor raises, so does the resolution of the group. *)
Lemma get_documents_raises (term e : string) :
  preprocess_text self (lower (strip term)) = Raise e →
  _get_documents_for_term self term = Raise e.
Proof. intros H. unfold _get_documents_for_term. by rewrite H. Qed.

End TermGroupFacts.

(** What the resolution of a term group would be with the normalizer of
    the specification as [preprocess_text], the method the class does not
    have: the union of the postings of those of its tokens that are in the
    index; the tokens are the ones the indexing-time pipeline
    [preprocess_manual] joins; a group without tokens resolves to the empty
    set. *)
Theorem terms_for_resolution (self : BooleanRetrieval) (stop_words : gset string)
    (stem : string → string) (group : string) :
  let tokens := Preprocessor.preprocess_text stop_words stem (lower (strip group)) in
  ∃ result,
    _get_documents_for_term (normalizing self stop_words stem) group = Ok result ∧
    (∀ d, d ∈ result ↔ ∃ token docs,
       token ∈ tokens ∧ inverted_index self !! token = Some docs ∧ d ∈ docs) ∧
    (tokens = [] → result = ∅) ∧
    join " " tokens =
      Preprocessor.preprocess_manual stop_words stem (lower (strip group)).
Proof.
  intros tokens.
  destruct (get_documents_tokens (normalizing self stop_words stem) group tokens)
    as (result & E & H); [done|].
  exists result. split; [done|]. split; [exact H|]. split.
  - intros Ht. apply set_eq. intros d. rewrite H, Ht. split.
    + intros (token & ? & Hin & _). by inv Hin.
    + set_solver.
  - symmetry. apply preprocess_manual_tokens.
Qed.

Lemma terms_for_resolution_witness :
  Preprocessor.preprocess_text Scenario.stop_words Scenario.stem
    (lower (strip " The AND ")) = [] ∧
  _get_documents_for_term
    (normalizing Scenario.retrieval Scenario.stop_words Scenario.stem) " The AND "
    = Ok ∅.
Proof.
  split; [reflexivity|].
  destruct (terms_for_resolution Scenario.retrieval Scenario.stop_words
              Scenario.stem " The AND ") as (result & -> & _ & H & _).
  by rewrite H.
Defined.

Section ShippedPreprocessor.
Variable self : BooleanRetrieval.
Variable stop_words : gset string.
Variable stem : string → string.

Lemma call_preprocess_text_raises term :
  Preprocessor.call_preprocess_text stop_words stem term
  = Raise "'DocumentPreprocessor' object has no attribute 'preprocess_text'".
Proof. reflexivity. Qed.

Lemma shipped_get_documents term :
  _get_documents_for_term (set_preprocessor self stop_words stem) term
  = Raise "'DocumentPreprocessor' object has no attribute 'preprocess_text'".
Proof.
  apply get_documents_raises. cbn [preprocess_text set_preprocessor].
  apply call_preprocess_text_raises.
Qed.

Lemma shipped_search_boolean query m :
  (search_boolean (set_preprocessor self stop_words stem) query m).1 = [].
Proof.
  apply (search_boolean_preprocess_raises _
           "'DocumentPreprocessor' object has no attribute 'preprocess_text'").
  intros term. apply call_preprocess_text_raises.
Qed.

End ShippedPreprocessor.

(** C2: on the object [__init__] builds, the resolution of a term group
    normalizes nothing: the call of [preprocess_text] raises AttributeError
    for every group, whatever the index holds, and [search_boolean] returns
    the empty list for every query.  On the index of the scenario the group
    "dog", whose term has the postings d1 and d3, raises, and the query
    "dog" returns no document and prints the error. *)
Theorem term_group_resolution_raises (self : BooleanRetrieval)
    (stop_words : gset string) (stem : string → string) (group : string) :
  _get_documents_for_term (set_preprocessor self stop_words stem) group
    = Raise "'DocumentPreprocessor' object has no attribute 'preprocess_text'" ∧
  (∀ query m, (search_boolean (set_preprocessor self stop_words stem) query m).1 = []) ∧
  inverted_index Scenario.retrieval !! "dog" = Some {[ "d1"; "d3" ]} ∧
  _get_documents_for_term
    (set_preprocessor Scenario.retrieval Scenario.stop_words Scenario.stem) "dog"
    = Raise "'DocumentPreprocessor' object has no attribute 'preprocess_text'" ∧
  search_boolean
    (set_preprocessor Scenario.retrieval Scenario.stop_words Scenario.stem) "dog" 100
    = ([], ["Error in Boolean search: 'DocumentPreprocessor' object has no attribute 'preprocess_text'"]).
Proof.
  split; [apply shipped_get_documents|].
  split; [apply shipped_search_boolean|].
  split; [vm_compute; reflexivity|].
  split; [apply shipped_get_documents|].
  vm_compute. reflexivity.
Qed.

(** ** The index builder *)

Section IndexFacts.
Variable reader : LuceneIndexReader.

Lemma add_posting_documents D self term :
  documents (add_posting D self term) = documents self.
Proof. done. Qed.

Lemma add_posting_lookup D self term T :
  default ∅ (inverted_index (add_posting D self term) !! T) =
    if decide (T = term) then default ∅ (inverted_index self !! T) ∪ {[D]}
    else default ∅ (inverted_index self !! T).
Proof.
  unfold add_posting. cbn.
  destruct (inverted_index self !! term) as [docs|] eqn:E; case_decide as HT.
  - subst T. by rewrite lookup_insert_eq, E.
  - by rewrite lookup_insert_ne.
  - subst T. by rewrite !lookup_insert_eq, E.
  - by rewrite !lookup_insert_ne.
Qed.

Lemma fold_add_posting_documents D keys self :
  documents (foldl (add_posting D) self keys) = documents self.
Proof. revert self. induction keys as [|k keys IH]; intros self; [done|]. simpl. by rewrite IH. Qed.

Lemma fold_add_posting_lookup D keys self T D' :
  D' ∈ default ∅ (inverted_index (foldl (add_posting D) self keys) !! T)
  ↔ D' ∈ default ∅ (inverted_index self !! T) ∨ (D' = D ∧ T ∈ keys).
Proof.
  revert self. induction keys as [|k keys IH]; intros self; simpl.
  - split; [by left|]. intros [?|[_ H]]; [done|by inv H].
  - rewrite IH, add_posting_lookup, elem_of_cons. case_decide as HT.
    + subst k. rewrite elem_of_union, elem_of_singleton. tauto.
    + tauto.
Qed.

Lemma vector_keys (v : gmap string nat) T : T ∈ (map_to_list v).*1 ↔ T ∈ dom v.
Proof.
  rewrite elem_of_dom, list_elem_of_fmap. split.
  - intros ([k x] & -> & H). apply elem_of_map_to_list in H. by exists x.
  - intros [x H]. exists (T, x). split; [done|]. by apply elem_of_map_to_list.
Qed.

Lemma index_document_documents self i :
  documents (index_document reader self i) =
    match convert_internal_docid_to_collection_docid reader i with
    | Ok D =>
        match doc reader D with
        | Ok o => <[D := default "" (o ≫= contents)]> (documents self)
        | Raise _ => documents self
        end
    | Raise _ => documents self
    end.
Proof.
  unfold index_document.
  destruct (convert_internal_docid_to_collection_docid reader i) as [D|]; [|done].
  destruct (doc reader D) as [[d|]|]; [|done..].
  destruct (get_document_vector reader D) as [[v|]|]; [|done..].
  case_decide; [done|]. by rewrite fold_add_posting_documents.
Qed.

Lemma index_document_postings self i T D :
  D ∈ default ∅ (inverted_index (index_document reader self i) !! T)
  ↔ D ∈ default ∅ (inverted_index self !! T) ∨ posts reader i D T.
Proof.
  unfold index_document, posts.
  destruct (convert_internal_docid_to_collection_docid reader i) as [D0|].
  2:{ split; [by left|]. by intros [?|[? _]]. }
  destruct (doc reader D0) as [[d|]|] eqn:Ed.
  2,3: cbn; split; [by left|];
       intros [?|([= ->] & ? & ? & ? & _)]; [done|congruence].
  destruct (get_document_vector reader D0) as [[v|]|] eqn:Ev.
  2,3: cbn; split; [by left|];
       intros [?|([= ->] & ? & ? & _ & ? & _)]; [done|congruence].
  case_decide as Hv.
  - subst v. cbn. split; [by left|].
    intros [?|([= ->] & ? & v & _ & ? & H)]; [done|].
    assert (v = ∅) as -> by congruence. by apply not_elem_of_empty in H.
  - rewrite fold_add_posting_lookup, vector_keys. cbn. split.
    + intros [?|[-> ?]]; [by left|]. right. split; [done|]. by exists d, v.
    + intros [?|([= ->] & d' & v' & ? & ? & ?)]; [by left|].
      right. split; [done|]. congruence.
Qed.

Lemma build_postings l self T D :
  D ∈ default ∅ (inverted_index (foldl (index_document reader) self l) !! T)
  ↔ D ∈ default ∅ (inverted_index self !! T) ∨ ∃ i, i ∈ l ∧ posts reader i D T.
Proof.
  revert self. induction l as [|j l IH]; intros self; simpl.
  - split; [by left|]. intros [?|(i & H & _)]; [done|by inv H].
  - rewrite IH, index_document_postings. split.
    + intros [[?|?]|(i & ? & ?)]; [by left|right; exists j|right; exists i];
        (split; [|done]); by constructor.
    + intros [?|(i & [->|?]%elem_of_cons & ?)]; [by left; left|by left; right|].
      right. by exists i.
Qed.

Lemma build_documents_kept l self D o :
  doc reader D = Ok o →
  documents self !! D = Some (default "" (o ≫= contents)) →
  documents (foldl (index_document reader) self l) !! D
    = Some (default "" (o ≫= contents)).
Proof.
  intros Ho. revert self. induction l as [|j l IH]; intros self H; [done|].
  simpl. apply IH. rewrite index_document_documents.
  destruct (convert_internal_docid_to_collection_docid reader j) as [D0|]; [|done].
  destruct (doc reader D0) as [o0|] eqn:E0; [|done].
  destruct (decide (D0 = D)) as [->|Hne].
  - rewrite lookup_insert_eq. congruence.
  - by rewrite lookup_insert_ne.
Qed.

Lemma build_documents_served l self D o i :
  i ∈ l →
  convert_internal_docid_to_collection_docid reader i = Ok D →
  doc reader D = Ok o →
  documents (foldl (index_document reader) self l) !! D
    = Some (default "" (o ≫= contents)).
Proof.
  intros Hi Hc Ho. revert self. induction l as [|j l IH]; intros self; [by inv Hi|].
  simpl. apply elem_of_cons in Hi as [<-|Hi]; [|by apply IH].
  apply build_documents_kept; [done|].
  by rewrite index_document_documents, Hc, Ho, lookup_insert_eq.
Qed.

Lemma build_documents_inv l self D c :
  documents (foldl (index_document reader) self l) !! D = Some c →
  documents self !! D = Some c ∨
  ∃ i o, i ∈ l ∧ convert_internal_docid_to_collection_docid reader i = Ok D ∧
         doc reader D = Ok o ∧ c = default "" (o ≫= contents).
Proof.
  revert self. induction l as [|j l IH]; intros self H; [by left|].
  simpl in H. apply IH in H as [H|(i & o & ? & ? & ? & ?)].
  - rewrite index_document_documents in H.
    destruct (convert_internal_docid_to_collection_docid reader j) as [D0|] eqn:Ec;
      [|by left].
    destruct (doc reader D0) as [o0|] eqn:E0; [|by left].
    destruct (decide (D0 = D)) as [->|Hne].
    + rewrite lookup_insert_eq in H. injection H as <-.
      right. exists j, o0. split; [by left|done].
    + rewrite lookup_insert_ne in H by done. by left.
  - right. exists i, o. split; [by right|done].
Qed.

(** What the built index holds, whatever the engine reports: the postings
    of the rounds of the loop. *)
Lemma build_inverted_index_postings pp self :
  init reader pp = Ok self →
  ∃ total_docs, stats_documents reader = Ok total_docs ∧
    (∀ T D, D ∈ default ∅ (inverted_index self !! T)
            ↔ ∃ i, i < total_docs ∧ posts reader i D T) ∧
    documents self =
      documents (foldl (index_document reader)
                   {| index_reader := Some reader; inverted_index := ∅;
                      documents := ∅; preprocess_text := pp |}
                   (seq 0 total_docs)).
Proof.
  unfold init, build_inverted_index. cbn [index_reader].
  destruct (stats_documents reader) as [total_docs|]; [|done]. cbn.
  intros [= <-]. exists total_docs. split; [done|]. split; [|done].
  intros T D. rewrite build_postings. cbn [inverted_index].
  rewrite lookup_empty. cbn [default]. split.
  - intros [?|(i & Hi%elem_of_seq & ?)]; [set_solver|]. exists i. split; [lia|done].
  - intros (i & Hi & ?). right. exists i. split; [|done]. apply elem_of_seq. lia.
Qed.

Lemma build_inverted_index_invariant pp self :
  init reader pp = Ok self →
  honours_term_sets reader →
  ∀ T D, D ∈ default ∅ (inverted_index self !! T)
         ↔ T ∈ split_ws (default "" (documents self !! D)).
Proof.
  intros (n & Hn & Hi & Hd)%build_inverted_index_postings Hr T D.
  rewrite Hi, Hd. split.
  - intros (i & Hlt & Hc & d & v & Hdoc & Hv & HT).
    rewrite (build_documents_served _ _ D (Some d) i); [|apply elem_of_seq; lia|done..].
    cbn. destruct (Hr D d Hdoc) as (v' & Hv' & Hiff).
    assert (v' = Some v) as -> by congruence. by apply Hiff.
  - intros HT.
    destruct (documents (foldl _ _ _) !! D) as [c|] eqn:E; [|by inv HT].
    apply build_documents_inv in E as [E|(i & o & Hlt%elem_of_seq & Hc & Hdoc & ->)];
      [cbn [documents] in E; by rewrite lookup_empty in E|].
    destruct o as [d|]; [|by inv HT]. cbn in HT.
    destruct (Hr D d Hdoc) as (v & Hv & Hiff). apply Hiff in HT.
    destruct v as [v|]; [|set_solver].
    exists i. split; [lia|]. split; [done|]. by exists d, v.
Qed.

End IndexFacts.

Lemma scenario_term_vector (text T : string) :
  T ∈ dom (Scenario.term_vector text) ↔ T ∈ split_ws text.
Proof.
  unfold Scenario.term_vector. induction (split_ws text) as [|t l IH]; simpl.
  - set_solver.
  - rewrite dom_insert, elem_of_union, elem_of_singleton, IH, elem_of_cons. done.
Qed.

Lemma scenario_reader_honours : honours_term_sets Scenario.reader.
Proof.
  intros id d.
  change (doc Scenario.reader id)
    with (Ok ((λ text, {| contents := Some text |}) <$> Scenario.lookup_stored id)).
  change (get_document_vector Scenario.reader id)
    with (Ok (Scenario.term_vector <$> Scenario.lookup_stored id)).
  destruct (Scenario.lookup_stored id) as [text|];
    cbn [fmap option_fmap option_map]; [|by intros [=]].
  intros [= <-]. eexists. split; [reflexivity|].
  cbn [default contents]. intros T. apply scenario_term_vector.
Qed.

(** C8: once the index is built, a document id is in the entry of a term
    exactly when the term is a key of the term vector the engine holds for
    the document; from an engine whose term vectors are the terms of the
    contents it stores, that is exactly when the term occurs in the
    normalized content of the document. *)
Theorem inverted_index_invariant (reader : LuceneIndexReader)
    (pp : string → Exc (list string)) (self : BooleanRetrieval) :
  init reader pp = Ok self →
  (∃ total_docs, stats_documents reader = Ok total_docs ∧
     ∀ T D, D ∈ default ∅ (inverted_index self !! T)
            ↔ ∃ i, i < total_docs ∧ posts reader i D T) ∧
  (honours_term_sets reader →
   ∀ T D, D ∈ default ∅ (inverted_index self !! T)
          ↔ T ∈ split_ws (default "" (documents self !! D))).
Proof.
  intros H. split.
  - destruct (build_inverted_index_postings reader pp self H) as (n & ? & ? & _).
    by exists n.
  - by apply (build_inverted_index_invariant reader pp).
Qed.

Lemma scenario_init :
  init Scenario.reader (preprocess_text Scenario.fresh) = Ok Scenario.retrieval.
Proof. reflexivity. Qed.

Lemma inverted_index_invariant_witness :
  init Scenario.reader (preprocess_text Scenario.fresh) = Ok Scenario.retrieval ∧
  honours_term_sets Scenario.reader ∧
  ∀ T D, D ∈ default ∅ (inverted_index Scenario.retrieval !! T)
         ↔ T ∈ split_ws (default "" (documents Scenario.retrieval !! D)).
Proof.
  split; [exact scenario_init|]. split; [exact scenario_reader_honours|].
  exact (proj2 (inverted_index_invariant Scenario.reader
                  (preprocess_text Scenario.fresh) Scenario.retrieval scenario_init)
           scenario_reader_honours).
Defined.

(** ** The query verifier *)

Section VerifierFacts.
Variable self : BooleanRetrieval.

Lemma intersect_terms_spec terms acc P :
  intersect_terms self acc terms = Ok P →
  P ⊆ acc ∧
  ∀ t, t ∈ terms → ∃ docs, _get_documents_for_term self t = Ok docs ∧ P ⊆ docs.
Proof.
  revert acc. induction terms as [|t terms IH]; intros acc; simpl.
  - intros [= ->]. split; [done|]. intros t H. by inv H.
  - destruct (_get_documents_for_term self t) as [docs|] eqn:E; [|done]. cbn.
    intros [H1 H2]%IH. split; [set_solver|].
    intros t' [->|H]%elem_of_cons; [|by apply H2].
    exists docs. split; [done|set_solver].
Qed.

Lemma handle_and_terms q P :
  _handle_and self q = Ok P →
  ∀ t, t ∈ strip <$> split " and " q →
       ∃ docs, _get_documents_for_term self t = Ok docs ∧ P ⊆ docs.
Proof.
  unfold _handle_and. destruct (strip <$> split " and " q) as [|t0 rest].
  - intros _ t H. by inv H.
  - destruct (_get_documents_for_term self t0) as [docs0|] eqn:E; [|done]. cbn.
    intros [H1 H2]%intersect_terms_spec t [->|H]%elem_of_cons; [|by apply H2].
    by exists docs0.
Qed.

Lemma union_terms_spec terms acc P :
  union_terms self acc terms = Ok P →
  (∀ t, t ∈ terms → ∃ docs, _get_documents_for_term self t = Ok docs) ∧
  ∀ d, d ∈ P →
       d ∈ acc ∨ ∃ t docs, t ∈ terms ∧ _get_documents_for_term self t = Ok docs ∧ d ∈ docs.
Proof.
  revert acc. induction terms as [|t terms IH]; intros acc; simpl.
  - intros [= ->]. split; [intros t H; by inv H|]. by left.
  - destruct (_get_documents_for_term self t) as [docs|] eqn:E; [|done]. cbn.
    intros [H1 H2]%IH. split.
    + intros t' [->|H]%elem_of_cons; [by exists docs|by apply H1].
    + intros d [[?|?]%elem_of_union|(t' & docs' & ? & ? & ?)]%H2.
      * by left.
      * right. exists t, docs. split; [by left|done].
      * right. exists t', docs'. split; [by right|done].
Qed.

(** The loops of the verifier on a document that every term holds. *)
Lemma verify_and_terms_found doc_id terms found missing v :
  (∀ t, t ∈ terms → ∃ docs, _get_documents_for_term self t = Ok docs ∧ doc_id ∈ docs) →
  ∃ found', verify_and_terms self doc_id terms found missing v = Ok (found', missing, v).
Proof.
  revert found. induction terms as [|t terms IH]; intros found H; simpl.
  - by eexists.
  - destruct (H t) as (docs & -> & Hd); [by left|]. cbn.
    rewrite decide_True by done. apply IH. intros t' Ht'. apply H. by right.
Qed.

Lemma missing_positive_terms_none doc_id terms missing :
  (∀ t, t ∈ terms → ∃ docs, _get_documents_for_term self t = Ok docs ∧ doc_id ∈ docs) →
  missing_positive_terms self doc_id terms missing = Ok missing.
Proof.
  induction terms as [|t terms IH]; intros H; simpl; [done|].
  destruct (H t) as (docs & -> & Hd); [by left|]. cbn.
  rewrite decide_False by (intros Hn; by apply Hn).
  apply IH. intros t' Ht'. apply H. by right.
Qed.

Lemma verify_or_terms_found doc_id terms found_any found_terms :
  (∀ t, t ∈ terms → ∃ docs, _get_documents_for_term self t = Ok docs) →
  ∃ any' found',
    verify_or_terms self doc_id terms found_any found_terms = Ok (any', found') ∧
    (found_any = true ∨
     (∃ t docs, t ∈ terms ∧ _get_documents_for_term self t = Ok docs ∧ doc_id ∈ docs)
     → any' = true).
Proof.
  revert found_any found_terms.
  induction terms as [|t terms IH]; intros found_any found_terms H; simpl.
  - eexists _, _. split; [done|]. intros [?|(t & ? & Ht & _)]; [done|by inv Ht].
  - destruct (H t) as (docs & E); [by left|]. rewrite E. cbn.
    assert (H' : ∀ t', t' ∈ terms → ∃ docs, _get_documents_for_term self t' = Ok docs).
    { intros t' Ht'. apply H. by right. }
    case_decide as Hd.
    + destruct (IH true (found_terms ++ [t]) H') as (a & f & -> & Ha).
      eexists _, _. split; [done|]. intros _. apply Ha. by left.
    + destruct (IH found_any found_terms H') as (a & f & -> & Ha).
      eexists _, _. split; [done|].
      intros [?|(t' & docs' & [->|Ht']%elem_of_cons & E' & Hd')].
      * apply Ha. by left.
      * rewrite E in E'. by simplify_eq.
      * apply Ha. right. by exists t', docs'.
Qed.

(** A document of the set the evaluator computes for [q] passes the
    check the verifier makes for [q]. *)
Lemma verify_document_passes q result_set doc_id v :
  resolve self (family_of q) q = Ok result_set →
  doc_id ∈ result_set →
  ∃ v', verify_document self q doc_id v = Ok v' ∧ logic_correct v' = logic_correct v.
Proof.
  rewrite family_of_priority. unfold verify_document.
  destruct (contains " and not " q) eqn:C1; cbn [resolve].
  { (* AND NOT *)
    unfold _handle_and_not, _verify_and_not_logic.
    destruct (split " and not " q) as [|p0 [|p1 [|? ?]]];
      try (intros [= <-] Hd; by apply not_elem_of_empty in Hd).
    destruct (contains " and " (strip p0)) eqn:C.
    - destruct (_handle_and self (strip p0)) as [pos|] eqn:Ep; [|done]. cbn.
      destruct (_get_documents_for_term self (strip p1)) as [neg|] eqn:En; [|done].
      cbn. intros [= <-] [Hp Hn]%elem_of_difference.
      rewrite missing_positive_terms_none.
      + cbn. rewrite decide_False by done. by eexists.
      + intros t Ht. destruct (handle_and_terms _ _ Ep t Ht) as (docs & ? & ?).
        exists docs. split; [done|set_solver].
    - destruct (_get_documents_for_term self (strip p0)) as [pos|] eqn:Ep; [|done].
      cbn. destruct (_get_documents_for_term self (strip p1)) as [neg|] eqn:En;
        [|done].
      cbn. intros [= <-] [Hp Hn]%elem_of_difference.
      rewrite decide_False by (intros Hx; by apply Hx). cbn.
      rewrite decide_False by done. by eexists. }
  destruct (contains " and " q) eqn:C2; cbn [resolve].
  { (* AND *)
    intros Ha Hd. unfold _verify_and_logic.
    destruct (verify_and_terms_found doc_id (strip <$> split " and " q) [] [] v)
      as (found & ->).
    - intros t Ht. destruct (handle_and_terms _ _ Ha t Ht) as (docs & ? & ?).
      exists docs. split; [done|set_solver].
    - cbn. by eexists. }
  destruct (contains " or " q) eqn:C3; cbn [resolve].
  { (* OR *)
    unfold _handle_or, _verify_or_logic.
    intros [H1 H2]%union_terms_spec Hd.
    destruct (verify_or_terms_found doc_id (strip <$> split " or " q) false [] H1)
      as (a & f & -> & Ha).
    cbn. rewrite Ha.
    - by eexists.
    - right. destruct (H2 _ Hd) as [?|?]; [set_solver|done]. }
  destruct (contains " not " q) eqn:C4; cbn [resolve].
  { (* NOT *)
    unfold _handle_not, _verify_not_logic.
    destruct (split " not " q) as [|p0 [|p1 [|? ?]]];
      try (intros [= <-] Hd; by apply not_elem_of_empty in Hd).
    destruct (_get_documents_for_term self (strip p0)) as [pos|] eqn:Ep; [|done].
    cbn. destruct (_get_documents_for_term self (strip p1)) as [neg|] eqn:En;
      [|done].
    cbn. intros [= <-] [Hp Hn]%elem_of_difference.
    rewrite (decide_False (P := doc_id ∉ pos)) by (intros Hx; by apply Hx).
    rewrite (decide_False (P := doc_id ∈ neg)) by done. by eexists. }
  intros _ _. by eexists.
Qed.

Lemma verify_results_pass q result_set results v :
  resolve self (family_of q) q = Ok result_set →
  (∀ d, d ∈ results → d ∈ result_set) →
  ∃ v', verify_results self q results v = Ok v' ∧ logic_correct v' = logic_correct v.
Proof.
  intros Hr. revert v. induction results as [|d results IH]; intros v H; simpl.
  - by eexists.
  - destruct (verify_document_passes q result_set d v Hr) as (v1 & -> & E1).
    { apply H. by left. }
    cbn. destruct (IH v1) as (v2 & -> & E2).
    { intros d' Hd'. apply H. by right. }
    exists v2. split; [done|congruence].
Qed.

(** On a query without leading or trailing whitespace the verifier agrees
    with the evaluator. *)
Lemma verify_trimmed_query query m :
  strip query = query →
  ∃ v, verify_boolean_logic self query (search_boolean self query m).1 = Ok v ∧
       logic_correct v = true.
Proof.
  intros Hq. unfold verify_boolean_logic, search_boolean.
  rewrite search_boolean_body_eq. case_decide as Hb; [by eexists|].
  rewrite parse_resolve, strip_lower_strip, Hq.
  destruct (resolve self (family_of (lower query)) (lower query))
    as [result_set|e] eqn:Hr; cbn; [|by eexists].
  apply (verify_results_pass _ result_set); [done|].
  intros d Hd%slice_to_elem_of. by apply elem_of_sorted.
Qed.

End VerifierFacts.

(** C9: on the object [__init__] builds, for every query and every maximum
    the verifier, given the query and the list the evaluator returns for
    it, returns a report with [logic_correct] up and no issue.  The list is
    empty, since every resolution of a term group raises, and the verifier
    has no document to check. *)
Theorem verifier_accepts_evaluator_output (self : BooleanRetrieval)
    (stop_words : gset string) (stem : string → string) (query0 : string) (m : Z) :
  let shipped := set_preprocessor self stop_words stem in
  ∃ v, verify_boolean_logic shipped query0 (search_boolean shipped query0 m).1 = Ok v ∧
       logic_correct v = true ∧ issues v = [].
Proof.
  cbn zeta. rewrite shipped_search_boolean. by eexists.
Qed.

(** With a [preprocess_text] that returns, the method the class does not
    have, the verifier and the evaluator agree on the queries without
    surrounding whitespace ([verify_trimmed_query]) and may disagree on the
    others: the evaluator trims the query and resolves "dog and" as a
    single term group, to d1 and d3; the verifier lowercases the query
    without trimming it, finds the AND keyword, and reports that both
    documents miss the empty term. *)
Example verify_untrimmed_query :
  search_boolean Scenario.retrieval "dog AND " 100 = (["d1"; "d3"], []) ∧
  verify_boolean_logic Scenario.retrieval "dog AND " ["d1"; "d3"] =
    Ok {| query := "dog AND ";
          total_results := 2;
          logic_correct := false;
          issues := [MissingRequiredTerm "d1" ""; MissingRequiredTerm "d3" ""];
          document_analysis :=
            [AndAnalysis "d1" ["dog"; ""] ["dog"] [""];
             AndAnalysis "d3" ["dog"; ""] ["dog"] [""]] |}.
Proof. split; vm_compute; reflexivity. Qed.

(** ** The scenario of the specification, evaluated *)

Example scenario_stored :
  Scenario.stored_documents =
    [("d1", "quick brown dog"); ("d2", "lazi cat"); ("d3", "dog cat play")].
Proof. vm_compute. reflexivity. Qed.

Example scenario_and :
  search_boolean Scenario.retrieval "dog AND cat" 100 = (["d3"], []).
Proof. vm_compute. reflexivity. Qed.

Example scenario_or :
  search_boolean Scenario.retrieval "dog OR cat" 100 = (["d1"; "d2"; "d3"], []).
Proof. vm_compute. reflexivity. Qed.

Example scenario_and_not :
  search_boolean Scenario.retrieval "dog AND NOT cat" 100 = (["d1"], []).
Proof. vm_compute. reflexivity. Qed.

Example scenario_absent_term :
  search_boolean Scenario.retrieval "bird" 100 = ([], []).
Proof. vm_compute. reflexivity. Qed.

Example scenario_overlapping_keywords :
  split " and not " (lower "dog AND NOT AND NOT cat") = ["dog"; "and not cat"] ∧
  search_boolean Scenario.retrieval "dog AND NOT AND NOT cat" 100 = (["d1"], []).
Proof. split; vm_compute; reflexivity. Qed.

Example scenario_and_not_twice_raising :
  _parse_boolean_query Scenario.retrieval_raising "dog AND NOT cat AND NOT bird"
    = Ok ∅ ∧
  and_not_split_once Scenario.retrieval_raising
    (strip (lower "dog AND NOT cat AND NOT bird"))
    = Raise "'DocumentPreprocessor' object has no attribute 'preprocess_text'".
Proof. split; reflexivity. Qed.

Example scenario_verified :
  ∃ v, verify_boolean_logic Scenario.retrieval "dog AND NOT cat" ["d1"] = Ok v ∧
       logic_correct v = true ∧ issues v = [].
Proof. eexists. split; [vm_compute; reflexivity|]. by split. Qed.

(** * Further properties of the evaluator *)

Section HandlerFacts.
Variable self : BooleanRetrieval.

Lemma split_fuel_nonempty n sep s : split_fuel n sep s ≠ [].
Proof. destruct n; simpl; by destruct (partition sep s) as [[??]|]. Qed.

Lemma split_nonempty sep s : split sep s ≠ [].
Proof. apply split_fuel_nonempty. Qed.

Lemma intersect_terms_elem_of terms acc P :
  intersect_terms self acc terms = Ok P →
  ∀ d, d ∈ P ↔
       d ∈ acc ∧ ∀ t, t ∈ terms →
                      ∃ docs, _get_documents_for_term self t = Ok docs ∧ d ∈ docs.
Proof.
  revert acc. induction terms as [|t terms IH]; intros acc; simpl.
  - intros [= ->] d. split; [|by intros [? _]].
    intros Hd. split; [done|]. intros t Ht. by inv Ht.
  - destruct (_get_documents_for_term self t) as [docs|] eqn:E; [|done]. cbn.
    intros H d. rewrite (IH _ H d), elem_of_intersection. split.
    + intros [[Ha Hd] Hall]. split; [done|].
      intros t' [->|Ht']%elem_of_cons; [by exists docs|by apply Hall].
    + intros [Ha Hall]. split.
      * split; [done|]. destruct (Hall t) as (docs' & E' & Hd'); [by left|].
        congruence.
      * intros t' Ht'. apply Hall. by right.
Qed.

Lemma intersect_terms_returns terms acc :
  (∀ t, t ∈ terms → ∃ docs, _get_documents_for_term self t = Ok docs) →
  ∃ P, intersect_terms self acc terms = Ok P.
Proof.
  revert acc. induction terms as [|t terms IH]; intros acc H; simpl; [by eexists|].
  destruct (H t) as (docs & ->); [by left|]. cbn.
  apply IH. intros t' Ht'. apply H. by right.
Qed.

Lemma handle_and_elem_of q P :
  _handle_and self q = Ok P →
  ∀ d, d ∈ P ↔
       ∀ t, t ∈ strip <$> split " and " q →
            ∃ docs, _get_documents_for_term self t = Ok docs ∧ d ∈ docs.
Proof.
  unfold _handle_and.
  destruct (strip <$> split " and " q) as [|t0 rest] eqn:E.
  { apply fmap_nil_inv in E. by apply split_nonempty in E. }
  destruct (_get_documents_for_term self t0) as [docs0|] eqn:E0; [|done]. cbn.
  intros H d. rewrite (intersect_terms_elem_of _ _ _ H d). split.
  - intros [Hd Hall] t [->|Ht]%elem_of_cons; [by exists docs0|by apply Hall].
  - intros Hall. split.
    + destruct (Hall t0) as (docs' & E' & Hd'); [by left|]. congruence.
    + intros t Ht. apply Hall. by right.
Qed.

Lemma handle_and_returns q :
  (∃ P, _handle_and self q = Ok P) ↔
  ∀ t, t ∈ strip <$> split " and " q →
       ∃ docs, _get_documents_for_term self t = Ok docs.
Proof.
  split.
  - intros [P H] t Ht. destruct (handle_and_terms self q P H t Ht) as (docs & ? & _).
    by exists docs.
  - unfold _handle_and. intros H.
    destruct (strip <$> split " and " q) as [|t0 rest]; [by eexists|].
    destruct (H t0) as (docs0 & ->); [by left|]. cbn.
    apply intersect_terms_returns. intros t Ht. apply H. by right.
Qed.

Lemma union_terms_elem_of terms acc P :
  union_terms self acc terms = Ok P →
  ∀ d, d ∈ P ↔
       d ∈ acc ∨ ∃ t docs,
         t ∈ terms ∧ _get_documents_for_term self t = Ok docs ∧ d ∈ docs.
Proof.
  intros H d. split; [by apply (union_terms_spec self terms acc P H)|].
  revert acc H. induction terms as [|t terms IH]; intros acc; simpl.
  - intros [= ->] [?|(t & ? & Ht & _)]; [done|by inv Ht].
  - destruct (_get_documents_for_term self t) as [docs|] eqn:E; [|done]. cbn.
    intros H [Hd|(t' & docs' & [->|Ht']%elem_of_cons & E' & Hd')].
    + apply (IH _ H). left. apply elem_of_union. by left.
    + apply (IH _ H). left. apply elem_of_union. right. congruence.
    + apply (IH _ H). right. by exists t', docs'.
Qed.

(** What a term group resolves to is made of postings of the index. *)
Lemma get_documents_from_index term docs d :
  _get_documents_for_term self term = Ok docs → d ∈ docs →
  ∃ T ds, inverted_index self !! T = Some ds ∧ d ∈ ds.
Proof.
  unfold _get_documents_for_term.
  destruct (preprocess_text self (lower (strip term))) as [tokens|]; [|done]. cbn.
  intros [= <-] [Hd|(T & ds & _ & ? & ?)]%union_postings_elem_of; [set_solver|].
  by exists T, ds.
Qed.

Lemma resolve_from_index family q P d :
  resolve self family q = Ok P → d ∈ P →
  ∃ T ds, inverted_index self !! T = Some ds ∧ d ∈ ds.
Proof.
  assert (A : ∀ q P, _handle_and self q = Ok P → d ∈ P →
                     ∃ T ds, inverted_index self !! T = Some ds ∧ d ∈ ds).
  { intros q' P' H Hd.
    destruct (strip <$> split " and " q') as [|t0 rest] eqn:E.
    { apply fmap_nil_inv in E. by apply split_nonempty in E. }
    pose proof (proj1 (handle_and_elem_of _ _ H d) Hd) as Hall.
    destruct (Hall t0) as (docs & E0 & Hd0); [rewrite E; by left|].
    by apply (get_documents_from_index t0 docs). }
  destruct family; cbn.
  - unfold _handle_and_not.
    destruct (split " and not " q) as [|p0 [|p1 [|? ?]]];
      try (intros [= <-] Hd; by apply not_elem_of_empty in Hd).
    destruct (contains " and " (strip p0)).
    + destruct (_handle_and self (strip p0)) as [pos|] eqn:Ep; [|done]. cbn.
      destruct (_get_documents_for_term self (strip p1)); [|done]. cbn.
      intros [= <-] [Hp _]%elem_of_difference. by apply (A _ _ Ep).
    + destruct (_get_documents_for_term self (strip p0)) as [pos|] eqn:Ep; [|done].
      cbn. destruct (_get_documents_for_term self (strip p1)); [|done]. cbn.
      intros [= <-] [Hp _]%elem_of_difference.
      by apply (get_documents_from_index _ _ _ Ep).
  - apply A.
  - unfold _handle_or. intros H Hd.
    apply (proj1 (union_terms_elem_of _ _ _ H d)) in Hd
      as [Hd|(t & docs & _ & E & Hd)]; [set_solver|].
    by apply (get_documents_from_index _ _ _ E).
  - unfold _handle_not.
    destruct (split " not " q) as [|p0 [|p1 [|? ?]]];
      try (intros [= <-] Hd; by apply not_elem_of_empty in Hd).
    destruct (_get_documents_for_term self (strip p0)) as [pos|] eqn:Ep; [|done].
    cbn. destruct (_get_documents_for_term self (strip p1)); [|done]. cbn.
    intros [= <-] [Hp _]%elem_of_difference.
    by apply (get_documents_from_index _ _ _ Ep).
  - apply get_documents_from_index.
Qed.

(** The list [search_boolean] returns, by the outcome of the parser. *)
Lemma search_boolean_results query m :
  (search_boolean self query m).1 =
    if decide (strip query = "") then []
    else match _parse_boolean_query self (strip query) with
         | Ok result_set => slice_to m (sorted result_set)
         | Raise _ => []
         end.
Proof.
  unfold search_boolean. rewrite search_boolean_body_eq.
  case_decide; [done|]. by destruct (_parse_boolean_query self (strip query)).
Qed.

Lemma parse_and query :
  contains " and not " (lower (strip query)) = false →
  contains " and " (lower (strip query)) = true →
  _parse_boolean_query self (strip query) = _handle_and self (lower (strip query)).
Proof.
  intros H1 H2. by rewrite parse_resolve, strip_lower_strip, family_of_priority, H1, H2.
Qed.

Lemma take_prefix {A} (l : list A) n n' : n ≤ n' → take n l `prefix_of` take n' l.
Proof.
  revert n n'. induction l as [|x l IH]; intros n n' H.
  - by rewrite !take_nil.
  - destruct n as [|n]; [apply prefix_nil|].
    destruct n' as [|n']; [lia|]. simpl. apply prefix_cons, IH. lia.
Qed.

End HandlerFacts.

(** X1: an AND query resolves to the documents that every one of its term
    groups holds. *)
Theorem handle_and_intersection (self : BooleanRetrieval) (q : string)
    (P : gset string) :
  _handle_and self q = Ok P →
  ∀ d, d ∈ P ↔
       ∀ t, t ∈ strip <$> split " and " q →
            ∃ docs, _get_documents_for_term self t = Ok docs ∧ d ∈ docs.
Proof. apply handle_and_elem_of. Qed.

Lemma handle_and_intersection_witness :
  _handle_and Scenario.retrieval "dog and cat and play" = Ok {[ "d3" ]} ∧
  ∀ t, t ∈ strip <$> split " and " "dog and cat and play" →
       ∃ docs, _get_documents_for_term Scenario.retrieval t = Ok docs ∧ "d3" ∈ docs.
Proof.
  assert (H : _handle_and Scenario.retrieval "dog and cat and play" = Ok {[ "d3" ]})
    by (vm_compute; reflexivity).
  split; [exact H|].
  apply (handle_and_intersection Scenario.retrieval _ _ H "d3"). set_solver.
Defined.

(** X2: an OR query resolves to the documents that at least one of its
    term groups holds. *)
Theorem handle_or_union (self : BooleanRetrieval) (q : string) (P : gset string) :
  _handle_or self q = Ok P →
  ∀ d, d ∈ P ↔
       ∃ t docs, t ∈ strip <$> split " or " q ∧
                 _get_documents_for_term self t = Ok docs ∧ d ∈ docs.
Proof.
  unfold _handle_or. intros H d.
  rewrite (union_terms_elem_of self _ _ _ H d). split; [|by right].
  intros [?|?]; [set_solver|done].
Qed.

Lemma handle_or_union_witness :
  _handle_or Scenario.retrieval "quick or lazy" = Ok {[ "d1"; "d2" ]} ∧
  ∃ t docs, t ∈ strip <$> split " or " "quick or lazy" ∧
            _get_documents_for_term Scenario.retrieval t = Ok docs ∧ "d2" ∈ docs.
Proof.
  assert (H : _handle_or Scenario.retrieval "quick or lazy" = Ok {[ "d1"; "d2" ]})
    by (vm_compute; reflexivity).
  split; [exact H|].
  apply (handle_or_union Scenario.retrieval _ _ H "d2"). set_solver.
Defined.

(** X3: the order of the operands of an AND query does not change the list
    [search_boolean] returns. *)
Theorem and_operands_order (self : BooleanRetrieval) (query1 query2 : string) (m : Z) :
  let q1 := lower (strip query1) in
  let q2 := lower (strip query2) in
  contains " and not " q1 = false → contains " and " q1 = true →
  contains " and not " q2 = false → contains " and " q2 = true →
  strip <$> split " and " q1 ≡ₚ strip <$> split " and " q2 →
  (search_boolean self query1 m).1 = (search_boolean self query2 m).1.
Proof.
  intros q1 q2 N1 A1 N2 A2 Hperm.
  rewrite !search_boolean_results.
  rewrite (decide_False (P := strip query1 = "")), (decide_False (P := strip query2 = ""));
    try (apply strip_nonblank; by apply (contains_nonempty " and ")).
  rewrite !parse_and by done. fold q1 q2.
  destruct (_handle_and self q1) as [P1|e1] eqn:E1.
  - assert (R : ∃ P2, _handle_and self q2 = Ok P2).
    { apply handle_and_returns. intros t Ht. rewrite <- Hperm in Ht.
      revert t Ht. apply handle_and_returns. by exists P1. }
    destruct R as [P2 E2]. rewrite E2.
    replace P2 with P1; [done|]. apply set_eq. intros d.
    rewrite (handle_and_elem_of self _ _ E1 d), (handle_and_elem_of self _ _ E2 d).
    split; intros H t Ht; apply H; by rewrite ?Hperm in *.
  - destruct (_handle_and self q2) as [P2|e2] eqn:E2; [|done].
    assert (R : ∃ P1, _handle_and self q1 = Ok P1).
    { apply handle_and_returns. intros t Ht. rewrite Hperm in Ht.
      revert t Ht. apply handle_and_returns. by exists P2. }
    destruct R as [P1 E]. congruence.
Qed.

Lemma and_operands_order_witness :
  strip <$> split " and " (lower (strip "dog AND cat"))
    ≡ₚ strip <$> split " and " (lower (strip " Cat and DOG ")) ∧
  (search_boolean Scenario.retrieval "dog AND cat" 100).1
    = (search_boolean Scenario.retrieval " Cat and DOG " 100).1.
Proof.
  assert (H : strip <$> split " and " (lower (strip "dog AND cat"))
              ≡ₚ strip <$> split " and " (lower (strip " Cat and DOG "))).
  { change (["dog"; "cat"] ≡ₚ ["cat"; "dog"]). apply Permutation_swap. }
  split; [exact H|].
  by apply (and_operands_order Scenario.retrieval "dog AND cat" " Cat and DOG " 100).
Defined.

(** X4: over the same term groups, what AND resolves to is part of what OR
    resolves to. *)
Theorem and_within_or (self : BooleanRetrieval) (q_and q_or : string)
    (A O : gset string) :
  strip <$> split " and " q_and = strip <$> split " or " q_or →
  _handle_and self q_and = Ok A →
  _handle_or self q_or = Ok O →
  A ⊆ O.
Proof.
  intros Hterms HA HO d Hd.
  pose proof (proj1 (handle_and_elem_of self _ _ HA d) Hd) as Hall.
  unfold _handle_or in HO.
  apply (union_terms_elem_of self _ _ _ HO d). right.
  destruct (strip <$> split " and " q_and) as [|t0 rest] eqn:E.
  { apply fmap_nil_inv in E. by apply split_nonempty in E. }
  destruct (Hall t0) as (docs & E0 & Hd0); [by left|].
  exists t0, docs. rewrite <- Hterms. split; [by left|done].
Qed.

Lemma and_within_or_witness :
  _handle_and Scenario.retrieval "dog and cat" = Ok {[ "d3" ]} ∧
  _handle_or Scenario.retrieval "dog or cat" = Ok {[ "d1"; "d2"; "d3" ]} ∧
  ({[ "d3" ]} : gset string) ⊆ {[ "d1"; "d2"; "d3" ]}.
Proof.
  assert (HA : _handle_and Scenario.retrieval "dog and cat" = Ok {[ "d3" ]})
    by (vm_compute; reflexivity).
  assert (HO : _handle_or Scenario.retrieval "dog or cat" = Ok {[ "d1"; "d2"; "d3" ]})
    by (vm_compute; reflexivity).
  split; [exact HA|]. split; [exact HO|].
  by apply (and_within_or Scenario.retrieval "dog and cat" "dog or cat" _ _ eq_refl).
Defined.

(** X5: a document that AND NOT or NOT returns is never in the documents
    of the excluded term group. *)
Theorem excluded_never_returned (self : BooleanRetrieval) (q : string)
    (P : gset string) (d : string) :
  d ∈ P →
  (_handle_and_not self q = Ok P →
   ∃ p0 p1 negative, split " and not " q = [p0; p1] ∧
     _get_documents_for_term self (strip p1) = Ok negative ∧ d ∉ negative) ∧
  (_handle_not self q = Ok P →
   ∃ p0 p1 positive negative, split " not " q = [p0; p1] ∧
     _get_documents_for_term self (strip p0) = Ok positive ∧
     _get_documents_for_term self (strip p1) = Ok negative ∧
     d ∈ positive ∧ d ∉ negative).
Proof.
  intros Hd. split.
  - unfold _handle_and_not.
    destruct (split " and not " q) as [|p0 [|p1 [|? ?]]];
      try (intros [= <-]; by apply not_elem_of_empty in Hd).
    destruct (if contains " and " (strip p0) then _ else _) as [pos|]; [|done]. cbn.
    destruct (_get_documents_for_term self (strip p1)) as [neg|] eqn:En; [|done].
    cbn. intros [= <-]. apply elem_of_difference in Hd as [_ Hn].
    by exists p0, p1, neg.
  - unfold _handle_not.
    destruct (split " not " q) as [|p0 [|p1 [|? ?]]];
      try (intros [= <-]; by apply not_elem_of_empty in Hd).
    destruct (_get_documents_for_term self (strip p0)) as [pos|] eqn:Ep; [|done].
    cbn. destruct (_get_documents_for_term self (strip p1)) as [neg|] eqn:En; [|done].
    cbn. intros [= <-]. apply elem_of_difference in Hd as [Hp Hn].
    by exists p0, p1, pos, neg.
Qed.

Lemma excluded_never_returned_witness :
  _handle_and_not Scenario.retrieval "dog and not cat" = Ok {[ "d1" ]} ∧
  ∃ p0 p1 negative, split " and not " "dog and not cat" = [p0; p1] ∧
    _get_documents_for_term Scenario.retrieval (strip p1) = Ok negative ∧
    "d1" ∉ negative.
Proof.
  assert (H : _handle_and_not Scenario.retrieval "dog and not cat" = Ok {[ "d1" ]})
    by (vm_compute; reflexivity).
  split; [exact H|].
  apply (excluded_never_returned Scenario.retrieval "dog and not cat" {[ "d1" ]} "d1");
    [set_solver|exact H].
Defined.

(** X6: a term group minus itself is empty: when both sides of AND NOT are
    the same single term group, [search_boolean] returns the empty list. *)
Theorem term_group_minus_itself (self : BooleanRetrieval) (query p0 p1 : string) (m : Z) :
  split " and not " (lower (strip query)) = [p0; p1] →
  strip p0 = strip p1 →
  contains " and " (strip p0) = false →
  (search_boolean self query m).1 = [].
Proof.
  intros Hs Hp Ha. rewrite search_boolean_results.
  case_decide as Hq; [done|].
  assert (C : contains " and not " (lower (strip query)) = true).
  { apply (split_length_contains " and not "); [done|]. by rewrite Hs. }
  rewrite parse_resolve, strip_lower_strip, family_of_priority, C. cbn [resolve].
  unfold _handle_and_not. rewrite Hs, Ha, Hp.
  destruct (_get_documents_for_term self (strip p1)) as [docs|]; [|done]. cbn.
  replace (docs ∖ docs) with (∅ : gset string) by set_solver.
  by rewrite sorted_empty, slice_to_nil.
Qed.

Lemma term_group_minus_itself_witness :
  split " and not " (lower (strip "Dog AND NOT dog")) = ["dog"; "dog"] ∧
  (search_boolean Scenario.retrieval "Dog AND NOT dog" 100).1 = [].
Proof.
  split; [reflexivity|].
  by apply (term_group_minus_itself Scenario.retrieval "Dog AND NOT dog" "dog" "dog").
Defined.

(** X7: every document id [search_boolean] returns is in a posting list of
    the inverted index. *)
Theorem results_from_index (self : BooleanRetrieval) (query : string) (m : Z)
    (d : string) :
  d ∈ (search_boolean self query m).1 →
  ∃ T docs, inverted_index self !! T = Some docs ∧ d ∈ docs.
Proof.
  rewrite search_boolean_results. case_decide as Hq; [by intros Hx; inv Hx|].
  rewrite parse_resolve.
  destruct (resolve self _ _) as [P|] eqn:E; [|by intros Hx; inv Hx].
  intros Hd%slice_to_elem_of%elem_of_sorted.
  by apply (resolve_from_index self _ _ _ _ E).
Qed.

Lemma results_from_index_witness :
  "d3" ∈ (search_boolean Scenario.retrieval "dog AND cat" 100).1 ∧
  ∃ T docs, inverted_index Scenario.retrieval !! T = Some docs ∧ "d3" ∈ docs.
Proof.
  assert (H : "d3" ∈ (search_boolean Scenario.retrieval "dog AND cat" 100).1).
  { replace (search_boolean Scenario.retrieval "dog AND cat" 100).1 with ["d3"]
      by (vm_compute; reflexivity). by left. }
  split; [exact H|].
  exact (results_from_index Scenario.retrieval "dog AND cat" 100 "d3" H).
Defined.

(** X8: with a larger maximum [search_boolean] returns the same list,
    extended: the results for a maximum are the first ones of the results
    for any larger maximum. *)
Theorem results_prefix (self : BooleanRetrieval) (query : string) (m m' : Z) :
  (0 ≤ m)%Z → (m ≤ m')%Z →
  (search_boolean self query m).1 `prefix_of` (search_boolean self query m').1.
Proof.
  intros H0 H. rewrite !search_boolean_results. case_decide; [done|].
  destruct (_parse_boolean_query self (strip query)) as [P|]; [|done].
  unfold slice_to.
  destruct (Z.leb_spec 0 m); [|lia]. destruct (Z.leb_spec 0 m'); [|lia].
  apply take_prefix. lia.
Qed.

Lemma results_prefix_witness :
  (0 ≤ 1)%Z ∧ (1 ≤ 2)%Z ∧
  (search_boolean Scenario.retrieval "dog OR cat" 1).1 = ["d1"] ∧
  (search_boolean Scenario.retrieval "dog OR cat" 2).1 = ["d1"; "d2"] ∧
  (search_boolean Scenario.retrieval "dog OR cat" 1).1
    `prefix_of` (search_boolean Scenario.retrieval "dog OR cat" 2).1.
Proof.
  split; [lia|]. split; [lia|].
  split; [vm_compute; reflexivity|]. split; [vm_compute; reflexivity|].
  apply (results_prefix Scenario.retrieval "dog OR cat" 1 2); lia.
Defined.

(** X9: when the maximum is at least the number of matching documents,
    [search_boolean] returns all of them. *)
Theorem results_complete (self : BooleanRetrieval) (query : string) (m : Z)
    (P : gset string) :
  strip query ≠ "" →
  _parse_boolean_query self (strip query) = Ok P →
  (Z.of_nat (size P) ≤ m)%Z →
  (search_boolean self query m).1 = sorted P ∧
  ∀ d, d ∈ (search_boolean self query m).1 ↔ d ∈ P.
Proof.
  intros Hq HP Hm.
  assert (E : (search_boolean self query m).1 = sorted P).
  { rewrite search_boolean_results, decide_False, HP by done.
    unfold slice_to. destruct (Z.leb_spec 0 m); [|lia].
    apply take_ge. rewrite sorted_Permutation. unfold size, set_size in Hm.
    cbn in Hm. lia. }
  split; [done|]. intros d. rewrite E. apply elem_of_sorted.
Qed.

Lemma results_complete_witness :
  _parse_boolean_query Scenario.retrieval (strip "dog OR cat")
    = Ok {[ "d1"; "d2"; "d3" ]} ∧
  (search_boolean Scenario.retrieval "dog OR cat" 3).1
    = sorted {[ "d1"; "d2"; "d3" ]}.
Proof.
  assert (H : _parse_boolean_query Scenario.retrieval (strip "dog OR cat")
              = Ok {[ "d1"; "d2"; "d3" ]}) by (vm_compute; reflexivity).
  split; [exact H|].
  apply (results_complete Scenario.retrieval "dog OR cat" 3 _); [done|exact H|].
  vm_compute. by intros [=].
Defined.

(** X10: [search_boolean] does not depend on the case of the query nor on
    the whitespace around it. *)
Theorem search_boolean_case_whitespace (self : BooleanRetrieval) (query : string) (m : Z) :
  search_boolean self (lower (strip query)) m = search_boolean self query m.
Proof.
  unfold search_boolean. rewrite !search_boolean_body_eq.
  rewrite strip_lower_strip.
  assert (B : lower (strip query) = "" ↔ strip query = "").
  { split; [|by intros ->]. by destruct (strip query). }
  assert (E : _parse_boolean_query self (lower (strip query))
              = _parse_boolean_query self (strip query)).
  { unfold _parse_boolean_query. by rewrite lower_idem. }
  rewrite E. destruct (decide (strip query = "")) as [Hq|Hq].
  - rewrite decide_True; [done|]. by apply B.
  - rewrite decide_False; [done|]. by rewrite B.
Qed.

(** * Further properties of the verifier *)

Section ReportFacts.
Variable self : BooleanRetrieval.

Lemma reported_refl v : reported v v.
Proof. split; [done|]. split; [done|]. by left. Qed.

Lemma reported_trans v1 v2 v3 : reported v1 v2 → reported v2 v3 → reported v1 v3.
Proof.
  intros (Q1 & T1 & H1) (Q2 & T2 & H2).
  split; [congruence|]. split; [congruence|].
  destruct H2 as [[L2 I2]|(L2 & x2 & N2 & I2)].
  - destruct H1 as [[L1 I1]|(L1 & x1 & N1 & I1)].
    + left. split; congruence.
    + right. split; [congruence|]. exists x1. split; [done|congruence].
  - right. split; [done|].
    destruct H1 as [[L1 I1]|(L1 & x1 & N1 & I1)].
    + exists x2. split; [done|congruence].
    + exists (x1 ++ x2). split; [by destruct x1|].
      rewrite I2, I1. by rewrite app_assoc.
Qed.

Lemma reported_flag v issue : reported v (flag v issue).
Proof.
  split; [done|]. split; [done|]. right. split; [done|]. by exists [issue].
Qed.

Lemma reported_add_analysis v a : reported v (add_analysis v a).
Proof. split; [done|]. split; [done|]. by left. Qed.

(** A report that is still correct came from a correct one. *)
Lemma reported_correct v v' :
  reported v v' → logic_correct v' = true → logic_correct v = true.
Proof. intros (_ & _ & [[L _]|[L _]]) H; congruence. Qed.

Lemma verify_and_terms_reported doc_id terms found missing v found' missing' v' :
  verify_and_terms self doc_id terms found missing v = Ok (found', missing', v') →
  reported v v' ∧
  (logic_correct v' = true →
   ∀ t, t ∈ terms → ∃ docs, _get_documents_for_term self t = Ok docs ∧ doc_id ∈ docs).
Proof.
  revert found missing v. induction terms as [|t terms IH]; intros found missing v; simpl.
  - intros [= <- <- <-]. split; [apply reported_refl|]. intros _ t Ht. by inv Ht.
  - destruct (_get_documents_for_term self t) as [docs|] eqn:E; [|done]. cbn.
    case_decide as Hd; intros [R H]%IH.
    + split; [done|]. intros L t' [->|Ht']%elem_of_cons; [by exists docs|by apply H].
    + split; [by eapply reported_trans; [apply reported_flag|]|].
      intros L. by apply (reported_correct _ _ R) in L.
Qed.

Lemma verify_or_terms_found_any doc_id terms found_any found_terms any' found' :
  verify_or_terms self doc_id terms found_any found_terms = Ok (any', found') →
  any' = true →
  found_any = true ∨
  ∃ t docs, t ∈ terms ∧ _get_documents_for_term self t = Ok docs ∧ doc_id ∈ docs.
Proof.
  revert found_any found_terms.
  induction terms as [|t terms IH]; intros found_any found_terms; simpl.
  - intros [= <- <-] ->. by left.
  - destruct (_get_documents_for_term self t) as [docs|] eqn:E; [|done]. cbn.
    case_decide as Hd; intros Hv Ha.
    + right. exists t, docs. split; [by left|done].
    + destruct (IH _ _ Hv Ha) as [?|(t' & docs' & ? & ? & ?)]; [by left|].
      right. exists t', docs'. split; [by right|done].
Qed.

Lemma missing_positive_terms_nil doc_id terms missing :
  missing_positive_terms self doc_id terms missing = Ok [] →
  ∀ t, t ∈ terms → ∃ docs, _get_documents_for_term self t = Ok docs ∧ doc_id ∈ docs.
Proof.
  revert missing. induction terms as [|t terms IH]; intros missing; simpl.
  - intros _ t Ht. by inv Ht.
  - destruct (_get_documents_for_term self t) as [docs|] eqn:E; [|done]. cbn.
    case_decide as Hd.
    + (* the term is missing: the list of missing terms cannot come back empty *)
      intros H. exfalso. clear -H.
      assert (G : ∀ terms acc, missing_positive_terms self doc_id terms acc = Ok [] →
                               acc = []).
      { clear. induction terms as [|t terms IH]; intros acc; simpl.
        - by intros [= ->].
        - destruct (_get_documents_for_term self t); [|done]. cbn.
          case_decide; intros Hx%IH; [by destruct acc|done]. }
      apply G in H. by destruct missing.
    + intros H t' [->|Ht']%elem_of_cons.
      * by exists docs.
      * by apply (IH _ H).
Qed.

Lemma verify_and_logic_reported q doc_id v v' :
  _verify_and_logic self q doc_id v = Ok v' → reported v v'.
Proof.
  unfold _verify_and_logic.
  destruct (verify_and_terms self doc_id _ [] [] v) as [[[f m] v1]|] eqn:E; [|done].
  cbn. intros [= <-]. apply verify_and_terms_reported in E as [R _].
  eapply reported_trans; [done|apply reported_add_analysis].
Qed.

Lemma verify_or_logic_reported q doc_id v v' :
  _verify_or_logic self q doc_id v = Ok v' → reported v v'.
Proof.
  unfold _verify_or_logic.
  destruct (verify_or_terms self doc_id _ false []) as [[a f]|]; [|done].
  cbn. intros [= <-]. destruct a.
  - apply reported_add_analysis.
  - eapply reported_trans; [apply reported_flag|apply reported_add_analysis].
Qed.

Lemma verify_and_not_logic_reported q doc_id v v' :
  _verify_and_not_logic self q doc_id v = Ok v' → reported v v'.
Proof.
  unfold _verify_and_not_logic.
  destruct (split " and not " q) as [|p0 [|p1 [|? ?]]];
    try (intros [= <-]; apply reported_refl).
  destruct (contains " and " (strip p0)).
  - destruct (missing_positive_terms self doc_id _ []) as [missing|]; [|done]. cbn.
    destruct missing as [|x missing]; cbn;
      (destruct (_get_documents_for_term self (strip p1)) as [neg|]; [|done]);
      cbn; case_decide; intros [= <-];
      eauto using reported_refl, reported_flag, reported_trans.
  - destruct (_get_documents_for_term self (strip p0)) as [pos|]; [|done]. cbn.
    case_decide; cbn;
      (destruct (_get_documents_for_term self (strip p1)) as [neg|]; [|done]);
      cbn; case_decide; intros [= <-];
      eauto using reported_refl, reported_flag, reported_trans.
Qed.

Lemma verify_not_logic_reported q doc_id v v' :
  _verify_not_logic self q doc_id v = Ok v' → reported v v'.
Proof.
  unfold _verify_not_logic.
  destruct (split " not " q) as [|p0 [|p1 [|? ?]]];
    try (intros [= <-]; apply reported_refl).
  destruct (_get_documents_for_term self (strip p0)) as [pos|]; [|done]. cbn.
  destruct (_get_documents_for_term self (strip p1)) as [neg|]; [|done]. cbn.
  repeat case_decide; intros [= <-];
    eauto using reported_refl, reported_flag, reported_trans.
Qed.

Lemma verify_document_reported q doc_id v v' :
  verify_document self q doc_id v = Ok v' → reported v v'.
Proof.
  unfold verify_document.
  destruct (contains " and not " q); [apply verify_and_not_logic_reported|].
  destruct (contains " and " q); [apply verify_and_logic_reported|].
  destruct (contains " or " q); [apply verify_or_logic_reported|].
  destruct (contains " not " q); [apply verify_not_logic_reported|].
  intros [= <-]. apply reported_refl.
Qed.

Lemma verify_results_reported q results v v' :
  verify_results self q results v = Ok v' → reported v v'.
Proof.
  revert v. induction results as [|d results IH]; intros v; simpl.
  - intros [= <-]. apply reported_refl.
  - destruct (verify_document self q d v) as [v1|] eqn:E; [|done]. cbn.
    intros H%IH. apply verify_document_reported in E.
    by eapply reported_trans.
Qed.

End ReportFacts.

(** X11: the report of the verifier keeps the query and the number of
    results it was given, and its flag [logic_correct] is up exactly when
    its list of issues is empty. *)
Theorem report_flag_issues (self : BooleanRetrieval) (query0 : string)
    (results : list string) (v : Verification) :
  verify_boolean_logic self query0 results = Ok v →
  query v = query0 ∧ total_results v = length results ∧
  (logic_correct v = true ↔ issues v = []).
Proof.
  unfold verify_boolean_logic.
  intros (Q & T & H)%verify_results_reported. cbn in *.
  split; [done|]. split; [done|].
  destruct H as [[-> ->]|(-> & x & Hx & ->)]; [done|].
  split; [done|]. by destruct x.
Qed.

Lemma report_flag_issues_witness :
  ∃ v, verify_boolean_logic Scenario.retrieval "dog AND cat" ["d1"; "d3"] = Ok v ∧
       logic_correct v = false ∧
       issues v = [MissingRequiredTerm "d1" "cat"] ∧
       (logic_correct v = true ↔ issues v = []).
Proof.
  eexists. split; [vm_compute; reflexivity|].
  split; [reflexivity|]. split; [reflexivity|].
  eapply (report_flag_issues Scenario.retrieval "dog AND cat" ["d1"; "d3"]).
  vm_compute. reflexivity.
Defined.

Section VerifierSoundness.
Variable self : BooleanRetrieval.

Lemma two_parts (l : list string) :
  bool_decide (length l = 2) = true → ∃ p0 p1, l = [p0; p1].
Proof.
  intros H%bool_decide_eq_true. destruct l as [|p0 [|p1 [|? ?]]]; try done.
  by exists p0, p1.
Qed.

Lemma not_two_parts (l : list string) :
  bool_decide (length l = 2) = false →
  match l with
  | [_; _] => False
  | _ => True
  end.
Proof.
  intros H%bool_decide_eq_false. by destruct l as [|p0 [|p1 [|? ?]]].
Qed.

(** A document that passes the check of a query the verifier checks is in
    the set the evaluator computes for that query. *)
Lemma verify_document_sound q S d v v' :
  verifier_checks q = true →
  resolve self (family_of q) q = Ok S →
  verify_document self q d v = Ok v' →
  logic_correct v' = true →
  d ∈ S.
Proof.
  unfold verifier_checks, verify_document. rewrite family_of_priority.
  destruct (contains " and not " q) eqn:C1; cbn [resolve].
  { (* AND NOT *)
    intros (p0 & p1 & Hs)%two_parts.
    unfold _handle_and_not, _verify_and_not_logic. rewrite Hs.
    destruct (contains " and " (strip p0)) eqn:C.
    - destruct (_handle_and self (strip p0)) as [pos|] eqn:Ep; [|done]. cbn.
      destruct (_get_documents_for_term self (strip p1)) as [neg|] eqn:En; [|done].
      cbn. intros [= <-].
      destruct (missing_positive_terms self d _ []) as [missing|] eqn:Em; [|done].
      cbn. destruct missing as [|x missing]; cbn; case_decide as Hn;
        intros [= <-] L; try done.
      apply elem_of_difference. split; [|done].
      apply (handle_and_elem_of self _ _ Ep d).
      by apply (missing_positive_terms_nil self d _ []).
    - destruct (_get_documents_for_term self (strip p0)) as [pos|] eqn:Ep; [|done].
      cbn. destruct (_get_documents_for_term self (strip p1)) as [neg|] eqn:En;
        [|done].
      cbn. intros [= <-]. case_decide as Hp; cbn; case_decide as Hn;
        intros [= <-] L; try done.
      apply elem_of_difference. split; [|done].
      destruct (decide (d ∈ pos)); [done|by destruct Hp]. }
  destruct (contains " and " q) eqn:C2; cbn [resolve].
  { (* AND *)
    intros _ HS. unfold _verify_and_logic.
    destruct (verify_and_terms self d _ [] [] v) as [[[f m] v1]|] eqn:E; [|done].
    cbn. intros [= <-] L. apply verify_and_terms_reported in E as [_ H].
    apply (handle_and_elem_of self _ _ HS d). by apply H. }
  destruct (contains " or " q) eqn:C3; cbn [resolve].
  { (* OR *)
    intros _ HS. unfold _handle_or in HS. unfold _verify_or_logic.
    destruct (verify_or_terms self d _ false []) as [[a f]|] eqn:E; [|done].
    cbn. destruct a; [|by intros [= <-]]. intros _ _.
    apply (union_terms_elem_of self _ _ _ HS d). right.
    by destruct (verify_or_terms_found_any self _ _ _ _ _ _ E eq_refl). }
  destruct (contains " not " q) eqn:C4; cbn [resolve]; [|done].
  (* NOT *)
  intros (p0 & p1 & Hs)%two_parts.
  unfold _handle_not, _verify_not_logic. rewrite Hs.
  destruct (_get_documents_for_term self (strip p0)) as [pos|] eqn:Ep; [|done].
  cbn. destruct (_get_documents_for_term self (strip p1)) as [neg|] eqn:En; [|done].
  cbn. intros [= <-]. case_decide as Hp; case_decide as Hn; intros [= <-] L;
    try done.
  apply elem_of_difference. split; [|done].
  destruct (decide (d ∈ pos)); [done|by destruct Hp].
Qed.

Lemma verify_results_sound q S results v v' :
  verifier_checks q = true →
  resolve self (family_of q) q = Ok S →
  verify_results self q results v = Ok v' →
  logic_correct v' = true →
  ∀ d, d ∈ results → d ∈ S.
Proof.
  intros Hc HS. revert v. induction results as [|d0 results IH]; intros v; simpl.
  - intros _ _ d Hd. by inv Hd.
  - destruct (verify_document self q d0 v) as [v1|] eqn:E; [|done]. cbn.
    intros Hr L d [->|Hd]%elem_of_cons; [|by apply (IH v1)].
    apply (verify_document_sound q S _ v v1); try done.
    by apply (reported_correct _ _ (verify_results_reported self _ _ _ _ Hr)).
Qed.

(** On a query the verifier does not check, a round of the loop leaves
    the report as it is. *)
Lemma verify_document_unchecked q d v :
  verifier_checks q = false → verify_document self q d v = Ok v.
Proof.
  unfold verifier_checks, verify_document. rewrite family_of_priority.
  destruct (contains " and not " q).
  { intros H%not_two_parts. unfold _verify_and_not_logic.
    by destruct (split " and not " q) as [|p0 [|p1 [|? ?]]]. }
  destruct (contains " and " q); [done|].
  destruct (contains " or " q); [done|].
  destruct (contains " not " q); [|done].
  intros H%not_two_parts. unfold _verify_not_logic.
  by destruct (split " not " q) as [|p0 [|p1 [|? ?]]].
Qed.

Lemma verify_results_unchecked q results v :
  verifier_checks q = false → verify_results self q results v = Ok v.
Proof.
  intros H. induction results as [|d results IH]; simpl; [done|].
  by rewrite verify_document_unchecked.
Qed.

End VerifierSoundness.

(** X12: on a query without surrounding whitespace that has a keyword (cut
    in two by it when the keyword is NOT or AND NOT), a report with
    [logic_correct] up means that every document of the list is one the
    evaluator finds for the query. *)
Theorem verifier_accepts_only_matches (self : BooleanRetrieval) (query0 : string)
    (results : list string) (S : gset string) (v : Verification) :
  strip query0 = query0 →
  verifier_checks (lower query0) = true →
  _parse_boolean_query self query0 = Ok S →
  verify_boolean_logic self query0 results = Ok v →
  logic_correct v = true →
  ∀ d, d ∈ results → d ∈ S.
Proof.
  intros Hq Hc HS Hv L.
  rewrite parse_resolve, strip_lower, Hq in HS.
  unfold verify_boolean_logic in Hv.
  by eapply (verify_results_sound self (lower query0) S results).
Qed.

Lemma verifier_accepts_only_matches_witness :
  ∃ v, verify_boolean_logic Scenario.retrieval "dog OR cat" ["d2"; "d3"] = Ok v ∧
       logic_correct v = true ∧
       ∀ d, d ∈ ["d2"; "d3"] → d ∈ ({[ "d1"; "d2"; "d3" ]} : gset string).
Proof.
  eexists. split; [vm_compute; reflexivity|]. split; [reflexivity|].
  eapply (verifier_accepts_only_matches Scenario.retrieval "dog OR cat");
    [reflexivity|reflexivity|vm_compute; reflexivity|vm_compute; reflexivity
    |reflexivity].
Defined.

(** X13: on a query without keyword, and on a query that NOT or AND NOT
    does not cut into exactly two parts, the verifier checks nothing: it
    returns the report it started with, [logic_correct] up and no issue,
    whatever list of results it is given. *)
Theorem verifier_unchecked_queries (self : BooleanRetrieval) (query0 : string)
    (results : list string) :
  verifier_checks (lower query0) = false →
  verify_boolean_logic self query0 results =
    Ok {| query := query0;
          total_results := length results;
          logic_correct := true;
          issues := [];
          document_analysis := [] |}.
Proof.
  intros H. unfold verify_boolean_logic. by apply verify_results_unchecked.
Qed.

Lemma verifier_unchecked_queries_witness :
  verifier_checks (lower "bird") = false ∧
  (search_boolean Scenario.retrieval "bird" 100).1 = [] ∧
  verify_boolean_logic Scenario.retrieval "bird" ["d1"; "d2"] =
    Ok {| query := "bird";
          total_results := 2;
          logic_correct := true;
          issues := [];
          document_analysis := [] |}.
Proof.
  split; [reflexivity|]. split; [vm_compute; reflexivity|].
  exact (verifier_unchecked_queries Scenario.retrieval "bird" ["d1"; "d2"] eq_refl).
Defined.

(** * The explanation and the test run *)

Section ExplainFacts.
Variable self : BooleanRetrieval.

Lemma part_0_1 sep s :
  sep ≠ "" → contains sep s = true →
  ∃ p0 p1, part (split sep s) 0 = Ok p0 ∧ part (split sep s) 1 = Ok p1.
Proof.
  intros Hsep H%(split_length_contains sep); [|done].
  destruct (split sep s) as [|p0 [|p1 l]]; simpl in H; try lia.
  by exists p0, p1.
Qed.

Lemma explain_returns query0 results :
  ∃ text, explain_boolean_query self query0 results = Ok text.
Proof.
  unfold explain_boolean_query. destruct results as [|d results]; [by eexists|].
  destruct (contains " and not " (lower query0)) eqn:C1.
  { destruct (part_0_1 " and not " _ ltac:(done) C1) as (p0 & p1 & -> & ->).
    by eexists. }
  destruct (contains " and " (lower query0)); [by eexists|].
  destruct (contains " or " (lower query0)); [by eexists|].
  destruct (contains " not " (lower query0)) eqn:C4; [|by eexists].
  destruct (part_0_1 " not " _ ltac:(done) C4) as (p0 & p1 & -> & ->).
  by eexists.
Qed.

Lemma run_queries_cons queries query0 acc :
  run_queries self (query0 :: queries) acc =
    (verification ←
       verify_boolean_logic self query0 (search_boolean self query0 100).1;
     explanation ←
       explain_boolean_query self query0 (search_boolean self query0 100).1;
     run_queries self queries
       (acc ++ [ {| qr_query := query0;
                    qr_results := (search_boolean self query0 100).1;
                    qr_verification := verification;
                    qr_explanation := explanation |} ])).
Proof. done. Qed.

(** A run over queries without surrounding whitespace returns one record
    per query, each with a report whose flag is up. *)
Lemma run_queries_trimmed queries acc :
  Forall (λ q, strip q = q) queries →
  ∃ rs, run_queries self queries acc = Ok (acc ++ rs) ∧
        qr_query <$> rs = queries ∧
        Forall (λ r, qr_results r = (search_boolean self (qr_query r) 100).1 ∧
                     logic_correct (qr_verification r) = true) rs.
Proof.
  revert acc. induction queries as [|q queries IH]; intros acc H.
  - exists []. by rewrite app_nil_r.
  - apply Forall_cons in H as [Hq H]. rewrite run_queries_cons.
    destruct (verify_trimmed_query self q 100 Hq) as (v & -> & Hv).
    destruct (explain_returns q (search_boolean self q 100).1) as (text & ->).
    cbn. destruct (IH (acc ++ [ {| qr_query := q;
                     qr_results := (search_boolean self q 100).1;
                     qr_verification := v;
                     qr_explanation := text |} ]) H) as (rs & -> & Hqs & Hrs).
    eexists (_ :: rs). split; [by rewrite <- app_assoc|].
    split; [cbn; by rewrite Hqs|]. by constructor.
Qed.

Lemma summary_all_passed rs :
  Forall (λ r, logic_correct (qr_verification r) = true) rs →
  summary rs = (length rs, length rs).
Proof.
  intros H. unfold summary. f_equal.
  induction H as [|r rs Hr H IH]; [done|].
  rewrite filter_cons, decide_True by done. cbn. by rewrite IH.
Qed.

End ExplainFacts.

(** X14: [explain_boolean_query] never fails on a missing part of the
    split query; for an empty list of results it returns its fixed
    sentence, and for a query without keyword it returns the empty text. *)
Theorem explain_never_raises (self : BooleanRetrieval) (query0 : string)
    (results : list string) :
  explain_boolean_query self query0 [] = Ok "No documents match the query." ∧
  ∃ text, explain_boolean_query self query0 results = Ok text ∧
          (results ≠ [] → family_of (lower query0) = SingleTerm → text = "").
Proof.
  split; [done|].
  destruct (explain_returns self query0 results) as (text & E).
  exists text. split; [done|]. intros Hr.
  rewrite family_of_priority. revert E. unfold explain_boolean_query.
  destruct results as [|d results]; [done|].
  destruct (contains " and not " (lower query0)); [done|].
  destruct (contains " and " (lower query0)); [done|].
  destruct (contains " or " (lower query0)); [done|].
  destruct (contains " not " (lower query0)); [done|].
  cbn. by intros [= <-].
Qed.

Lemma explain_never_raises_witness :
  explain_boolean_query Scenario.retrieval "Dog AND cat" ["d3"] =
    Ok ("Query requires ALL terms: ['dog', 'cat']" +:+ newline +:+
        "Documents must contain every specified term.") ∧
  explain_boolean_query Scenario.retrieval "dog" ["d1"; "d3"] = Ok "".
Proof.
  split; [reflexivity|].
  destruct (explain_never_raises Scenario.retrieval "dog" ["d1"; "d3"])
    as (_ & text & -> & H).
  by rewrite H.
Defined.

(** X15: [run_test_queries] returns one record per test query, for every
    index and every preprocessor, and the summary it prints counts all
    five queries as passed. *)
Theorem run_test_queries_all_pass (self : BooleanRetrieval) :
  ∃ query_results,
    run_test_queries self = Ok query_results ∧
    qr_query <$> query_results = test_queries ∧
    summary query_results = (5, 5).
Proof.
  destruct (run_queries_trimmed self test_queries []) as (rs & E & Hq & Hr).
  { unfold test_queries. repeat constructor. }
  exists rs. split; [done|]. split; [done|].
  rewrite summary_all_passed.
  - by rewrite <- (length_fmap qr_query), Hq.
  - eapply Forall_impl; [exact Hr|]. by intros r [_ ?].
Qed.

Example run_test_queries_raising :
  (λ r, (qr_results r, logic_correct (qr_verification r))) <$>
    (match run_test_queries Scenario.retrieval_raising with
     | Ok rs => rs
     | Raise _ => []
     end)
  = [([], true); ([], true); ([], true); ([], true); ([], true)].
Proof. vm_compute. reflexivity. Qed.

(** * Further properties of the index builder *)

Section BuilderFacts.
Variable reader : LuceneIndexReader.

Lemma add_posting_lookup_entry D self term T :
  inverted_index (add_posting D self term) !! T =
    if decide (T = term)
    then Some (default ∅ (inverted_index self !! term) ∪ {[D]})
    else inverted_index self !! T.
Proof.
  unfold add_posting. cbn.
  destruct (inverted_index self !! term) as [docs|] eqn:E; case_decide as HT.
  - subst T. by rewrite lookup_insert_eq, E.
  - by rewrite lookup_insert_ne.
  - subst T. by rewrite !lookup_insert_eq.
  - by rewrite !lookup_insert_ne.
Qed.

Lemma add_posting_index_reader D self term :
  index_reader (add_posting D self term) = index_reader self.
Proof. done. Qed.

Lemma fold_add_posting_index_reader D keys self :
  index_reader (foldl (add_posting D) self keys) = index_reader self.
Proof.
  revert self. induction keys as [|k keys IH]; intros self; [done|].
  simpl. by rewrite IH.
Qed.

Lemma index_document_index_reader self i :
  index_reader (index_document reader self i) = index_reader self.
Proof.
  unfold index_document.
  destruct (convert_internal_docid_to_collection_docid reader i) as [D|]; [|done].
  destruct (doc reader D) as [[d|]|]; [|done..].
  destruct (get_document_vector reader D) as [[v|]|]; [|done..].
  case_decide; [done|]. by rewrite fold_add_posting_index_reader.
Qed.

Lemma build_index_reader l self :
  index_reader (foldl (index_document reader) self l) = index_reader self.
Proof.
  revert self. induction l as [|i l IH]; intros self; [done|].
  simpl. by rewrite IH, index_document_index_reader.
Qed.

(** The keys of the index after the rounds: the keys before, and the terms
    posted. *)
Lemma fold_add_posting_key D keys self T :
  is_Some (inverted_index (foldl (add_posting D) self keys) !! T)
  ↔ is_Some (inverted_index self !! T) ∨ T ∈ keys.
Proof.
  revert self. induction keys as [|k keys IH]; intros self; simpl.
  - split; [by left|]. intros [?|H]; [done|by inv H].
  - rewrite IH, add_posting_lookup_entry, elem_of_cons. case_decide as HT.
    + subst k. split; [intros _; right; by left|intros _; left; by eexists].
    + tauto.
Qed.

Lemma index_document_key self i T :
  is_Some (inverted_index (index_document reader self i) !! T)
  ↔ is_Some (inverted_index self !! T) ∨ ∃ D, posts reader i D T.
Proof.
  unfold index_document, posts.
  destruct (convert_internal_docid_to_collection_docid reader i) as [D0|].
  2:{ split; [by left|]. by intros [?|(? & ? & _)]. }
  destruct (doc reader D0) as [[d|]|] eqn:Ed.
  2,3: cbn; split; [by left|];
       intros [?|(? & [= ->] & ? & ? & ? & _)]; [done|congruence].
  destruct (get_document_vector reader D0) as [[v|]|] eqn:Ev.
  2,3: cbn; split; [by left|];
       intros [?|(? & [= ->] & ? & ? & _ & ? & _)]; [done|congruence].
  case_decide as Hv.
  - subst v. cbn. split; [by left|].
    intros [?|(? & [= ->] & ? & v & _ & ? & H)]; [done|].
    assert (v = ∅) as -> by congruence. by apply not_elem_of_empty in H.
  - rewrite fold_add_posting_key, vector_keys. cbn. split.
    + intros [?|?]; [by left|]. right. exists D0. split; [done|]. by exists d, v.
    + intros [?|(? & [= ->] & d' & v' & ? & ? & ?)]; [by left|].
      right. congruence.
Qed.

Lemma build_key l self T :
  is_Some (inverted_index (foldl (index_document reader) self l) !! T)
  ↔ is_Some (inverted_index self !! T) ∨ ∃ i D, i ∈ l ∧ posts reader i D T.
Proof.
  revert self. induction l as [|j l IH]; intros self; simpl.
  - split; [by left|]. intros [?|(i & ? & H & _)]; [done|by inv H].
  - rewrite IH, index_document_key. split.
    + intros [[?|(D & ?)]|(i & D & ? & ?)]; [by left|right; exists j, D|right; exists i, D];
        (split; [|done]); by constructor.
    + intros [?|(i & D & [->|?]%elem_of_cons & ?)];
        [by left; left|left; right; by exists D|].
      right. by exists i, D.
Qed.

(** Two index maps with the same keys and the same members are equal. *)
Lemma index_eq (m1 m2 : gmap string (gset string)) :
  (∀ T, is_Some (m1 !! T) ↔ is_Some (m2 !! T)) →
  (∀ T D, D ∈ default ∅ (m1 !! T) ↔ D ∈ default ∅ (m2 !! T)) →
  m1 = m2.
Proof.
  intros Hk Hm. apply map_eq. intros T.
  specialize (Hk T). pose proof (Hm T) as HT.
  destruct (m1 !! T) as [s1|], (m2 !! T) as [s2|]; cbn in *.
  - f_equal. by apply set_eq.
  - destruct Hk as [Hk _]. by destruct (Hk ltac:(by eexists)).
  - destruct Hk as [_ Hk]. by destruct (Hk ltac:(by eexists)).
  - done.
Qed.

(** Every entry of the index has a document, and every document of an
    entry has a stored content: the rounds keep this. *)
Lemma add_posting_entries D self term :
  is_Some (documents self !! D) →
  (∀ T docs, inverted_index self !! T = Some docs →
             docs ≠ ∅ ∧ ∀ D', D' ∈ docs → is_Some (documents self !! D')) →
  ∀ T docs, inverted_index (add_posting D self term) !! T = Some docs →
            docs ≠ ∅ ∧
            ∀ D', D' ∈ docs → is_Some (documents (add_posting D self term) !! D').
Proof.
  intros HD H T docs. rewrite add_posting_lookup_entry, add_posting_documents.
  case_decide as HT; [|apply H]. intros [= <-]. split; [set_solver|].
  intros D' [Hd|Hd%elem_of_singleton]%elem_of_union; [|by subst D'].
  destruct (inverted_index self !! term) as [old|] eqn:E; [|set_solver].
  by apply (H term old).
Qed.

Lemma fold_add_posting_entries D keys self :
  is_Some (documents self !! D) →
  (∀ T docs, inverted_index self !! T = Some docs →
             docs ≠ ∅ ∧ ∀ D', D' ∈ docs → is_Some (documents self !! D')) →
  ∀ T docs, inverted_index (foldl (add_posting D) self keys) !! T = Some docs →
            docs ≠ ∅ ∧
            ∀ D', D' ∈ docs →
                  is_Some (documents (foldl (add_posting D) self keys) !! D').
Proof.
  revert self. induction keys as [|k keys IH]; intros self HD H; [done|].
  simpl. apply IH; [done|]. by apply add_posting_entries.
Qed.

Lemma set_documents_entries self D c :
  (∀ T docs, inverted_index self !! T = Some docs →
             docs ≠ ∅ ∧ ∀ D', D' ∈ docs → is_Some (documents self !! D')) →
  ∀ T docs,
    inverted_index (set_documents self (<[D := c]> (documents self))) !! T = Some docs →
    docs ≠ ∅ ∧
    ∀ D', D' ∈ docs →
          is_Some (documents (set_documents self (<[D := c]> (documents self))) !! D').
Proof.
  intros H T docs HT. cbn in *. destruct (H T docs HT) as [Hn Hs].
  split; [done|]. intros D' HD'. rewrite lookup_insert_is_Some'.
  right. by apply Hs.
Qed.

Lemma index_document_entries self i :
  (∀ T docs, inverted_index self !! T = Some docs →
             docs ≠ ∅ ∧ ∀ D', D' ∈ docs → is_Some (documents self !! D')) →
  ∀ T docs, inverted_index (index_document reader self i) !! T = Some docs →
            docs ≠ ∅ ∧
            ∀ D', D' ∈ docs → is_Some (documents (index_document reader self i) !! D').
Proof.
  intros H. unfold index_document.
  destruct (convert_internal_docid_to_collection_docid reader i) as [D|]; [|done].
  destruct (doc reader D) as [[d|]|]; [| |done].
  - destruct (get_document_vector reader D) as [[v|]|];
      try apply set_documents_entries; try done.
    case_decide; [by apply set_documents_entries|].
    apply fold_add_posting_entries; [|by apply set_documents_entries].
    cbn. rewrite lookup_insert_eq. by eexists.
  - by apply set_documents_entries.
Qed.

Lemma build_entries l self :
  (∀ T docs, inverted_index self !! T = Some docs →
             docs ≠ ∅ ∧ ∀ D', D' ∈ docs → is_Some (documents self !! D')) →
  ∀ T docs,
    inverted_index (foldl (index_document reader) self l) !! T = Some docs →
    docs ≠ ∅ ∧
    ∀ D', D' ∈ docs →
          is_Some (documents (foldl (index_document reader) self l) !! D').
Proof.
  revert self. induction l as [|i l IH]; intros self H; [done|].
  simpl. apply IH. by apply index_document_entries.
Qed.

(** What [init] returns, as the fold it is. *)
Lemma init_fold pp self :
  init reader pp = Ok self →
  ∃ total_docs, stats_documents reader = Ok total_docs ∧
    self = foldl (index_document reader)
             {| index_reader := Some reader; inverted_index := ∅;
                documents := ∅; preprocess_text := pp |} (seq 0 total_docs).
Proof.
  unfold init, build_inverted_index. cbn [index_reader].
  destruct (stats_documents reader) as [n|]; [|done]. cbn.
  intros [= <-]. by exists n.
Qed.

End BuilderFacts.

(** X16: in the index that [build_inverted_index] builds, no term has an
    empty set of documents, and every document id of an entry is a key of
    the stored contents [documents]. *)
Theorem built_entries_nonempty (reader : LuceneIndexReader)
    (pp : string → Exc (list string)) (self : BooleanRetrieval)
    (T : string) (docs : gset string) :
  init reader pp = Ok self →
  inverted_index self !! T = Some docs →
  docs ≠ ∅ ∧ ∀ D, D ∈ docs → is_Some (documents self !! D).
Proof.
  intros (n & _ & ->)%init_fold. apply build_entries.
  intros T' docs'. cbn. by rewrite lookup_empty.
Qed.

Lemma built_entries_nonempty_witness :
  init Scenario.reader (preprocess_text Scenario.fresh) = Ok Scenario.retrieval ∧
  inverted_index Scenario.retrieval !! "dog" = Some {[ "d1"; "d3" ]} ∧
  ({[ "d1"; "d3" ]} : gset string) ≠ ∅.
Proof.
  assert (H : inverted_index Scenario.retrieval !! "dog" = Some {[ "d1"; "d3" ]})
    by (vm_compute; reflexivity).
  split; [exact scenario_init|]. split; [exact H|].
  exact (proj1 (built_entries_nonempty Scenario.reader _ _ _ _ scenario_init H)).
Defined.

(** X17: the stored contents after the build: a document id has a content
    exactly when some round of the loop got it from the engine and the
    engine's lookup of the document returned; the content is the one the
    engine holds, and the empty string when the engine has no document or
    no content for it. *)
Theorem built_documents (reader : LuceneIndexReader)
    (pp : string → Exc (list string)) (self : BooleanRetrieval)
    (D c : string) :
  init reader pp = Ok self →
  documents self !! D = Some c ↔
  ∃ total_docs i o,
    stats_documents reader = Ok total_docs ∧ i < total_docs ∧
    convert_internal_docid_to_collection_docid reader i = Ok D ∧
    doc reader D = Ok o ∧ c = default "" (o ≫= contents).
Proof.
  intros (n & Hn & ->)%init_fold. split.
  - intros [H|(i & o & Hi%elem_of_seq & ? & ? & ?)]%build_documents_inv.
    + cbn in H. by rewrite lookup_empty in H.
    + exists n, i, o. split; [done|]. split; [lia|done].
  - intros (n' & i & o & Hn' & Hi & Hc & Hd & ->).
    assert (n' = n) as -> by congruence.
    apply (build_documents_served reader _ _ D o i); [|done..].
    apply elem_of_seq. lia.
Qed.

Lemma built_documents_witness :
  init Scenario.reader (preprocess_text Scenario.fresh) = Ok Scenario.retrieval ∧
  documents Scenario.retrieval !! "d2" = Some "lazi cat".
Proof.
  split; [exact scenario_init|].
  apply (built_documents Scenario.reader _ _ "d2" "lazi cat" scenario_init).
  exists 3, 1, (Some {| contents := Some "lazi cat" |}).
  split; [reflexivity|]. split; [lia|]. split; [reflexivity|].
  split; [vm_compute; reflexivity|reflexivity].
Defined.

(** X18: building again over the same engine changes neither the index
    nor the stored contents. *)
Theorem rebuild_changes_nothing (reader : LuceneIndexReader)
    (pp : string → Exc (list string)) (self self' : BooleanRetrieval) :
  init reader pp = Ok self →
  build_inverted_index self = Ok self' →
  inverted_index self' = inverted_index self ∧ documents self' = documents self.
Proof.
  intros (n & Hn & ->)%init_fold.
  unfold build_inverted_index. rewrite build_index_reader. cbn [index_reader].
  rewrite Hn. cbn. intros [= <-].
  set (self0 := {| index_reader := Some reader; inverted_index := ∅;
                   documents := ∅; preprocess_text := pp |}).
  set (self1 := foldl (index_document reader) self0 (seq 0 n)).
  split.
  - apply index_eq.
    + intros T. rewrite build_key. split; [|by left].
      intros [?|?]; [done|]. apply build_key. by right.
    + intros T D. rewrite build_postings. split; [|by left].
      intros [?|?]; [done|]. apply build_postings. by right.
  - apply map_eq. intros D.
    destruct (documents (foldl _ self1 _) !! D) as [c|] eqn:E2.
    + apply build_documents_inv in E2 as [?|(i & o & ? & ? & ? & ->)]; [done|].
      symmetry. by apply (build_documents_served reader _ _ D o i).
    + destruct (documents self1 !! D) as [c|] eqn:E1; [|done].
      apply build_documents_inv in E1 as [E1|(i & o & ? & ? & ? & ->)].
      * cbn in E1. by rewrite lookup_empty in E1.
      * rewrite (build_documents_served reader _ self1 D o i) in E2; done.
Qed.

Lemma rebuild_changes_nothing_witness :
  init Scenario.reader (preprocess_text Scenario.fresh) = Ok Scenario.retrieval ∧
  build_inverted_index Scenario.retrieval = Ok Scenario.retrieval ∧
  inverted_index Scenario.retrieval = inverted_index Scenario.retrieval.
Proof.
  assert (H : build_inverted_index Scenario.retrieval = Ok Scenario.retrieval)
    by (vm_compute; reflexivity).
  split; [exact scenario_init|]. split; [exact H|].
  exact (proj1 (rebuild_changes_nothing Scenario.reader _ _ _ scenario_init H)).
Defined.

(** * Further properties of the preprocessor *)

Section WordFacts.

Lemma all_chars_filter_chars p s : all_chars p (filter_chars p s) = true.
Proof.
  induction s as [|c s IH]; [done|]. simpl.
  destruct (p c) eqn:E; [|done]. simpl. by rewrite E.
Qed.

Lemma filter_chars_all_chars p s : all_chars p s = true → filter_chars p s = s.
Proof.
  induction s as [|c s IH]; [done|]. simpl.
  intros [-> H]%andb_true_iff. by rewrite IH.
Qed.

Lemma all_chars_app p a b :
  all_chars p (a +:+ b) = all_chars p a && all_chars p b.
Proof. induction a as [|c a IH]; [done|]. simpl. by rewrite IH, andb_assoc. Qed.

(** The words of a text are not empty and hold no whitespace; they hold
    only characters of the text. *)
Lemma split_ws_words s w :
  w ∈ split_ws s → w ≠ "" ∧ all_chars (λ c, negb (isspace c)) w = true.
Proof.
  revert w. induction s as [|c s IH]; intros w; [by intros H; inv H|].
  rewrite split_ws_cons. destruct (isspace c) eqn:E; [apply IH|].
  destruct s as [|c' s'].
  { intros ->%list_elem_of_singleton. simpl. by rewrite E. }
  destruct (isspace c') eqn:E'.
  { intros [->|Hw]%elem_of_cons; [simpl; by rewrite E|by apply IH]. }
  destruct (split_ws (String c' s')) as [|w' ws] eqn:W.
  { intros ->%list_elem_of_singleton. simpl. by rewrite E. }
  intros [->|Hw]%elem_of_cons.
  - split; [done|]. simpl. rewrite E. simpl. apply IH. by left.
  - apply IH. by right.
Qed.

Lemma split_ws_all_chars p s w :
  all_chars p s = true → w ∈ split_ws s → all_chars p w = true.
Proof.
  revert w. induction s as [|c s IH]; intros w Hs; [by intros H; inv H|].
  simpl in Hs. apply andb_true_iff in Hs as [Hc Hs].
  rewrite split_ws_cons. destruct (isspace c); [by apply IH|].
  destruct s as [|c' s'].
  { intros ->%list_elem_of_singleton. simpl. by rewrite Hc. }
  destruct (isspace c').
  { intros [->|Hw]%elem_of_cons; [simpl; by rewrite Hc|by apply IH]. }
  destruct (split_ws (String c' s')) as [|w' ws] eqn:W.
  { intros ->%list_elem_of_singleton. simpl. by rewrite Hc. }
  intros [->|Hw]%elem_of_cons.
  - simpl. rewrite Hc. simpl. apply IH; [done|]. by left.
  - apply IH; [done|]. by right.
Qed.

Lemma split_ws_space s : split_ws (String " " s) = split_ws s.
Proof. done. Qed.

(** A word followed by a space and more text is the first word. *)
Lemma split_ws_word w rest :
  w ≠ "" → all_chars (λ c, negb (isspace c)) w = true →
  split_ws (w +:+ " " +:+ rest) = w :: split_ws rest.
Proof.
  induction w as [|c w IH]; [done|]. intros _. simpl all_chars.
  intros [Hc Hw]%andb_true_iff. apply negb_true_iff in Hc.
  change (String c w +:+ " " +:+ rest) with (String c (w +:+ " " +:+ rest)).
  rewrite split_ws_cons, Hc. destruct w as [|c' w'].
  - done.
  - change (String c' w' +:+ " " +:+ rest) with (String c' (w' +:+ " " +:+ rest)).
    simpl in Hw. apply andb_true_iff in Hw as [Hc' Hw'].
    pose proof Hc' as Hc''. apply negb_true_iff in Hc''. rewrite Hc''.
    change (String c' (w' +:+ " " +:+ rest)) with (String c' w' +:+ " " +:+ rest).
    rewrite IH; [done|done|]. simpl. by rewrite Hc'.
Qed.

Lemma split_ws_single w :
  w ≠ "" → all_chars (λ c, negb (isspace c)) w = true → split_ws w = [w].
Proof.
  induction w as [|c w IH]; [done|]. intros _. simpl all_chars.
  intros [Hc Hw]%andb_true_iff. apply negb_true_iff in Hc.
  rewrite split_ws_cons, Hc. destruct w as [|c' w']; [done|].
  simpl in Hw. apply andb_true_iff in Hw as [Hc' Hw'].
  pose proof Hc' as Hc''. apply negb_true_iff in Hc''. rewrite Hc''.
  rewrite IH; [done|done|]. simpl. by rewrite Hc'.
Qed.

Lemma split_ws_join l :
  (∀ w, w ∈ l → w ≠ "" ∧ all_chars (λ c, negb (isspace c)) w = true) →
  split_ws (join " " l) = l.
Proof.
  induction l as [|w l IH]; intros H; [done|].
  destruct (H w) as [Hn Hs]; [by left|].
  destruct l as [|w' l'].
  - by apply split_ws_single.
  - change (join " " (w :: w' :: l')) with (w +:+ " " +:+ join " " (w' :: l')).
    rewrite split_ws_word by done. f_equal. apply IH.
    intros v Hv. apply H. by right.
Qed.

Lemma split_ws_clean_whitespace s :
  split_ws (Preprocessor.clean_whitespace s) = split_ws s.
Proof. apply split_ws_join. intros w. apply split_ws_words. Qed.

Lemma filter_all {A} (P : A → Prop) `{∀ x, Decision (P x)} (l : list A) :
  (∀ x, x ∈ l → P x) → filter P l = l.
Proof.
  induction l as [|x l IH]; intros HP; [done|].
  rewrite filter_cons, decide_True by (apply HP; by left).
  f_equal. apply IH. intros y Hy. apply HP. by right.
Qed.

Lemma space_not_punctuation c :
  isspace c = true → negb (mem_char c Preprocessor.punctuation) = true.
Proof. destruct c as [[] [] [] [] [] [] [] []]; by vm_compute. Qed.

(** Counting the words by their starts. *)
Lemma word_starts_bounds s :
  word_starts false s ≤ word_starts true s ∧
  word_starts true s ≤ S (word_starts false s).
Proof. destruct s as [|c s]; simpl; [lia|]. destruct (isspace c); lia. Qed.

Lemma split_ws_length s : length (split_ws s) = word_starts true s.
Proof.
  induction s as [|c s IH]; [done|].
  rewrite split_ws_cons. simpl word_starts. destruct (isspace c); [done|].
  destruct s as [|c' s']; [done|].
  simpl word_starts in *. destruct (isspace c') eqn:E'.
  - exact (f_equal S IH).
  - destruct (split_ws_head c' s' E') as (w & ws & W). rewrite W in *.
    cbn [length] in *. lia.
Qed.

Lemma word_starts_lower b s : word_starts b (lower s) = word_starts b s.
Proof.
  revert b. induction s as [|c s IH]; intros b; [done|].
  simpl. by rewrite isspace_lower_char, !IH.
Qed.

Lemma word_starts_filter_chars keep b s :
  (∀ c, isspace c = true → keep c = true) →
  word_starts b (filter_chars keep s) ≤ word_starts b s.
Proof.
  intros Hk. revert b. induction s as [|c s IH]; intros b; [done|].
  simpl. destruct (isspace c) eqn:E.
  - rewrite (Hk c E). simpl. rewrite E. apply IH.
  - destruct (keep c).
    + simpl. rewrite E. specialize (IH false). lia.
    + specialize (IH b). pose proof (word_starts_bounds s).
      destruct b; lia.
Qed.

Lemma word_starts_app_word b x t :
  all_chars (λ c, negb (isspace c)) x = true →
  word_starts b (x +:+ t) ≤ (if b then 1 else 0) + word_starts true t.
Proof.
  revert b. induction x as [|c x IH]; intros b.
  - intros _. simpl. pose proof (word_starts_bounds t). destruct b; lia.
  - simpl all_chars. intros [Hc Hx]%andb_true_iff. apply negb_true_iff in Hc.
    simpl. rewrite Hc. specialize (IH false Hx). simpl in IH. lia.
Qed.

Lemma word_starts_join l :
  (∀ w, w ∈ l → all_chars (λ c, negb (isspace c)) w = true) →
  word_starts true (join " " l) ≤ length l.
Proof.
  induction l as [|w l IH]; intros H; [done|].
  assert (Hw : all_chars (λ c, negb (isspace c)) w = true) by (apply H; by left).
  destruct l as [|w' l'].
  - simpl join. pose proof (word_starts_app_word true w "" Hw) as B.
    replace (w +:+ "") with w in B; [simpl in *; lia|].
    clear. induction w as [|c w IH]; [done|]. simpl. by rewrite <- IH.
  - change (join " " (w :: w' :: l')) with (w +:+ " " +:+ join " " (w' :: l')).
    pose proof (word_starts_app_word true w (" " +:+ join " " (w' :: l')) Hw) as B.
    assert (I : word_starts true (join " " (w' :: l')) ≤ length (w' :: l')).
    { apply IH. intros v Hv. apply H. by right. }
    change (word_starts true (" " +:+ join " " (w' :: l')))
      with (word_starts true (join " " (w' :: l'))) in B.
    cbn [length] in *. lia.
Qed.

End WordFacts.

Section PipelineFacts.
Variable stop_words : gset string.
Variable stem : string → string.

Lemma all_chars_ext p q s : (∀ c, p c = q c) → all_chars p s = all_chars q s.
Proof. intros H. induction s as [|c s IH]; [done|]. simpl. by rewrite H, IH. Qed.

Lemma all_chars_join p l :
  p " "%char = true → (∀ w, w ∈ l → all_chars p w = true) →
  all_chars p (join " " l) = true.
Proof.
  intros Hp. induction l as [|w l IH]; intros H; [done|].
  destruct l as [|w' l']; [apply H; by left|].
  change (join " " (w :: w' :: l')) with (w +:+ " " +:+ join " " (w' :: l')).
  rewrite !all_chars_app, (H w) by (by left). simpl. rewrite Hp. simpl.
  apply IH. intros v Hv. apply H. by right.
Qed.

Lemma remove_punctuation_codes text :
  Preprocessor.remove_punctuation text =
    filter_chars (λ c, negb (Preprocessor.is_ascii_punctuation c)) text.
Proof.
  apply filter_chars_ext. intros c. by rewrite punctuation_codes.
Qed.

(** The words [preprocess_manual] hands to the stemmer. *)
Lemma words_before_stemming text w :
  w ∈ Preprocessor.remove_stopwords stop_words
        (split_ws (Preprocessor.clean_whitespace
           (Preprocessor.remove_punctuation (Preprocessor.to_lowercase text)))) →
  token w ∧ w ∉ stop_words.
Proof.
  unfold Preprocessor.remove_stopwords, Preprocessor.to_lowercase.
  rewrite split_ws_clean_whitespace, remove_punctuation_codes.
  intros [Hs Hw]%list_elem_of_filter.
  set (x := filter_chars _ (lower text)) in *.
  assert (Hx : lower x = x) by apply lower_filter_chars, lower_idem.
  assert (Hl : lower w = w) by by apply (lower_split_ws x).
  split; [|by rewrite <- Hl].
  destruct (split_ws_words x w Hw) as [Hn Hsp].
  split; [done|]. split; [done|]. split; [|done].
  apply (split_ws_all_chars _ x); [apply all_chars_filter_chars|done].
Qed.

Lemma preprocess_manual_words text :
  ∃ words,
    Preprocessor.preprocess_manual stop_words stem text = join " " (stem <$> words) ∧
    ∀ w, w ∈ words → token w ∧ w ∉ stop_words.
Proof.
  eexists. split; [reflexivity|]. apply words_before_stemming.
Qed.

(** A text made of clean tokens that are not stopwords and that the
    stemmer leaves alone goes through the pipeline unchanged. *)
Lemma preprocess_manual_fixed l :
  (∀ w, w ∈ l → token w ∧ (w ∉ stop_words) ∧ stem w = w) →
  Preprocessor.preprocess_manual stop_words stem (join " " l) = join " " l.
Proof.
  intros H.
  assert (Hw : ∀ w, w ∈ l → w ≠ "" ∧ all_chars (λ c, negb (isspace c)) w = true).
  { intros w (T & _)%H. destruct T as (? & ? & _). done. }
  unfold Preprocessor.preprocess_manual, Preprocessor.to_lowercase,
    Preprocessor.clean_whitespace, Preprocessor.remove_stopwords,
    Preprocessor.stem_words. cbn zeta.
  rewrite lower_join by (intros w (T & _)%H; by destruct T as (_ & _ & _ & ?)).
  rewrite remove_punctuation_codes, filter_chars_all_chars.
  2:{ apply all_chars_join; [done|].
      intros w (T & _)%H. by destruct T as (_ & _ & ? & _). }
  rewrite !(split_ws_join l Hw).
  rewrite filter_all.
  2:{ intros w (T & Hs & _)%H. destruct T as (_ & _ & _ & Hl). by rewrite Hl. }
  f_equal. clear Hw. induction l as [|w l IH]; [done|]. cbn.
  destruct (H w) as (_ & _ & ->); [by left|].
  f_equal. apply IH. intros v Hv. apply H. by right.
Qed.

End PipelineFacts.

(** X19: every word that [preprocess_manual] hands to the stemmer is a
    clean token (not empty, without whitespace or punctuation, in lower
    case) that is not a stopword; the result is the stems of these words
    joined by single spaces. *)
Theorem stemmer_input_clean (stop_words : gset string) (stem : string → string)
    (text : string) :
  ∃ words,
    Preprocessor.preprocess_manual stop_words stem text = join " " (stem <$> words) ∧
    ∀ w, w ∈ words → token w ∧ w ∉ stop_words.
Proof.
  apply preprocess_manual_words.
Qed.

(** X20: when the stem of a word the pipeline hands to the stemmer (a
    clean token that is not a stopword) never holds whitespace, the
    processed text has no more words than the original text. *)
Theorem processed_words_bounded (stop_words : gset string) (stem : string → string)
    (text : string) :
  (∀ w, token w → w ∉ stop_words →
        all_chars (λ c, negb (isspace c)) (stem w) = true) →
  length (split_ws (Preprocessor.preprocess_manual stop_words stem text))
    ≤ length (split_ws text).
Proof.
  intros Hstem.
  unfold Preprocessor.preprocess_manual, Preprocessor.stem_words. cbn zeta.
  rewrite (split_ws_length (join _ _)).
  etrans; [apply word_starts_join|].
  { intros w (v & -> & [T Hs]%words_before_stemming)%list_elem_of_fmap.
    by apply Hstem. }
  unfold Preprocessor.remove_stopwords, Preprocessor.to_lowercase,
    Preprocessor.remove_punctuation.
  rewrite split_ws_clean_whitespace.
  rewrite length_fmap. etrans; [apply length_filter|].
  rewrite !split_ws_length.
  etrans; [apply word_starts_filter_chars, space_not_punctuation|].
  by rewrite word_starts_lower.
Qed.

Lemma processed_words_bounded_witness :
  length (split_ws (Preprocessor.preprocess_manual Scenario.stop_words Scenario.stem
                      "The quick, lazy dog -- and the cat!"))
    ≤ length (split_ws "The quick, lazy dog -- and the cat!").
Proof.
  apply (processed_words_bounded Scenario.stop_words Scenario.stem
           "The quick, lazy dog -- and the cat!").
  intros w (_ & Hw & _) _. unfold Scenario.stem.
  destruct (decide (w = "lazy")); [reflexivity|exact Hw].
Defined.

(** X21: the pipeline is idempotent for a stemmer that maps clean tokens
    to clean tokens, does not produce a stopword from a word that is none,
    and leaves its own stems alone. *)
Theorem preprocess_manual_idempotent (stop_words : gset string)
    (stem : string → string) (text : string) :
  (∀ w, token w → token (stem w)) →
  (∀ w, token w → w ∉ stop_words → stem w ∉ stop_words) →
  (∀ w, token w → stem (stem w) = stem w) →
  Preprocessor.preprocess_manual stop_words stem
    (Preprocessor.preprocess_manual stop_words stem text)
  = Preprocessor.preprocess_manual stop_words stem text.
Proof.
  intros H1 H2 H3.
  destruct (preprocess_manual_words stop_words stem text) as (words & -> & Hw).
  apply preprocess_manual_fixed.
  intros v (w & -> & [T Hs]%Hw)%list_elem_of_fmap. auto.
Qed.

Lemma preprocess_manual_idempotent_witness :
  Preprocessor.preprocess_manual Scenario.stop_words (λ w, w)
    (Preprocessor.preprocess_manual Scenario.stop_words (λ w, w)
       "The quick, brown dog -- and the cat!")
  = Preprocessor.preprocess_manual Scenario.stop_words (λ w, w)
      "The quick, brown dog -- and the cat!".
Proof.
  apply (preprocess_manual_idempotent Scenario.stop_words (λ w, w)
           "The quick, brown dog -- and the cat!"); intros w; tauto.
Defined.

Section StepFacts.

Lemma filter_chars_app p s s' :
  filter_chars p (s +:+ s') = filter_chars p s +:+ filter_chars p s'.
Proof.
  induction s as [|c s IH]; [done|]. simpl.
  destruct (p c); simpl; by rewrite IH.
Qed.

End StepFacts.

(** X22: [clean_whitespace] keeps the words of the text, and cleaning a
    cleaned text changes nothing. *)
Theorem clean_whitespace_words (text : string) :
  split_ws (Preprocessor.clean_whitespace text) = split_ws text ∧
  Preprocessor.clean_whitespace (Preprocessor.clean_whitespace text)
    = Preprocessor.clean_whitespace text.
Proof.
  split; [apply split_ws_clean_whitespace|].
  unfold Preprocessor.clean_whitespace at 1 3.
  by rewrite split_ws_clean_whitespace.
Qed.

(** X23: the text returned by [remove_punctuation] holds no ASCII
    punctuation character; the function works character by character (the
    result for a concatenation is the concatenation of the results), and
    applying it twice equals applying it once. *)
Theorem remove_punctuation_characters (text text' : string) :
  all_chars (λ c, negb (Preprocessor.is_ascii_punctuation c))
    (Preprocessor.remove_punctuation text) = true ∧
  Preprocessor.remove_punctuation (text +:+ text')
    = Preprocessor.remove_punctuation text +:+ Preprocessor.remove_punctuation text' ∧
  Preprocessor.remove_punctuation (Preprocessor.remove_punctuation text)
    = Preprocessor.remove_punctuation text.
Proof.
  rewrite !remove_punctuation_codes. split; [apply all_chars_filter_chars|].
  split; [apply filter_chars_app|].
  apply filter_chars_all_chars, all_chars_filter_chars.
Qed.

Section DocumentsFacts.
Variable stop_words : gset string.
Variable stem : string → string.
Variable analyze : string → Exc (list string).

Lemma preprocess_documents_loop_ok documents processed_docs :
  (∀ doc, doc ∈ documents → is_Some (doc !! "id") ∧ is_Some (doc !! "contents")) →
  Preprocessor.preprocess_documents_loop stop_words stem analyze documents true
    processed_docs
  = Ok (processed_docs
          ++ (processed (Preprocessor.preprocess_manual stop_words stem) <$> documents)).
Proof.
  revert processed_docs.
  induction documents as [|doc documents IH]; intros processed_docs H.
  { cbn. by rewrite app_nil_r. }
  destruct (H doc) as [[i Hi] [c Hc]]; [by left|].
  cbn [Preprocessor.preprocess_documents_loop]. unfold Preprocessor.getitem.
  rewrite Hi, Hc. cbn [mbind Exc_bind].
  rewrite IH by (intros d Hd; apply H; by right).
  rewrite <- app_assoc. cbn [fmap list_fmap app].
  unfold processed at 2. by rewrite Hi, Hc.
Qed.

Lemma preprocess_documents_loop_raise complete doc rest manual processed_docs :
  (∀ d, d ∈ complete → is_Some (d !! "id") ∧ is_Some (d !! "contents")) →
  manual = true →
  Preprocessor.preprocess_documents_loop stop_words stem analyze
    (complete ++ doc :: rest) manual processed_docs
  = match doc !! "id", doc !! "contents" with
    | None, _ => Raise "'id'"
    | Some _, None => Raise "'contents'"
    | Some _, Some _ =>
        Preprocessor.preprocess_documents_loop stop_words stem analyze
          (doc :: rest) manual
          (processed_docs
             ++ (processed (Preprocessor.preprocess_manual stop_words stem) <$> complete))
    end.
Proof.
  intros H ->. revert processed_docs.
  induction complete as [|d complete IH]; intros processed_docs.
  { cbn [app fmap list_fmap]. rewrite app_nil_r.
    cbn [Preprocessor.preprocess_documents_loop]. unfold Preprocessor.getitem.
    destruct (doc !! "id") as [i|]; [|done].
    destruct (doc !! "contents") as [c|]; done. }
  destruct (H d) as [[i Hi] [c Hc]]; [by left|].
  cbn [app Preprocessor.preprocess_documents_loop]. unfold Preprocessor.getitem at 1 2.
  rewrite Hi, Hc. cbn [mbind Exc_bind].
  rewrite IH by (intros d' Hd; apply H; by right).
  rewrite <- app_assoc. cbn [fmap list_fmap app].
  unfold processed at 2. by rewrite Hi, Hc.
Qed.

End DocumentsFacts.

(** X24: when every document has an id and contents, manual
    [preprocess_documents] returns one document per input document, in the
    same order: the same id, the contents put through [preprocess_manual],
    and the original contents under the key raw; every other key of the
    input document is dropped. *)
Theorem preprocess_documents_manual (stop_words : gset string)
    (stem : string → string) (analyze : string → Exc (list string))
    (documents : list (gmap string string)) :
  (∀ doc, doc ∈ documents → is_Some (doc !! "id") ∧ is_Some (doc !! "contents")) →
  Preprocessor.preprocess_documents stop_words stem analyze documents true
  = Ok (processed (Preprocessor.preprocess_manual stop_words stem) <$> documents).
Proof.
  intros H. unfold Preprocessor.preprocess_documents.
  by rewrite preprocess_documents_loop_ok.
Qed.

Lemma preprocess_documents_manual_witness :
  Preprocessor.preprocess_documents Scenario.stop_words Scenario.stem
    (λ _, Raise "analyzer") [ {[ "id" := "d1"; "contents" := "The lazy dog!"; "title" := "t" ]} ] true
  = Ok [ {[ "id" := "d1"; "contents" := "lazi dog"; "raw" := "The lazy dog!" ]} ].
Proof.
  rewrite (preprocess_documents_manual Scenario.stop_words Scenario.stem
             (λ _, Raise "analyzer")
             [ {[ "id" := "d1"; "contents" := "The lazy dog!"; "title" := "t" ]} ]).
  - vm_compute. reflexivity.
  - intros doc ->%list_elem_of_singleton. split; vm_compute; eauto.
Defined.

(** X25: manual [preprocess_documents] raises KeyError at the first
    document that lacks the key id or the key contents, with the missing
    key as its message (id is looked up first), and returns nothing for the
    documents before it. *)
Theorem preprocess_documents_missing_key (stop_words : gset string)
    (stem : string → string) (analyze : string → Exc (list string))
    (complete : list (gmap string string)) (doc : gmap string string)
    (rest : list (gmap string string)) :
  (∀ d, d ∈ complete → is_Some (d !! "id") ∧ is_Some (d !! "contents")) →
  doc !! "id" = None ∨ doc !! "contents" = None →
  Preprocessor.preprocess_documents stop_words stem analyze
    (complete ++ doc :: rest) true
  = Raise (match doc !! "id" with Some _ => "'contents'" | None => "'id'" end).
Proof.
  intros H Hdoc. unfold Preprocessor.preprocess_documents.
  rewrite preprocess_documents_loop_raise by done.
  destruct (doc !! "id") as [i|]; [|done].
  destruct (doc !! "contents") as [c|]; [|done].
  by destruct Hdoc.
Qed.

Lemma preprocess_documents_missing_key_witness :
  Preprocessor.preprocess_documents Scenario.stop_words Scenario.stem
    (λ _, Raise "analyzer")
    ([ {[ "id" := "d1"; "contents" := "The lazy dog!" ]} ]
       ++ {[ "id" := "d2"; "text" := "no contents" ]} :: []) true
  = Raise "'contents'".
Proof.
  rewrite (preprocess_documents_missing_key Scenario.stop_words Scenario.stem
             (λ _, Raise "analyzer")
             [ {[ "id" := "d1"; "contents" := "The lazy dog!" ]} ]
             {[ "id" := "d2"; "text" := "no contents" ]} []).
  - vm_compute. reflexivity.
  - intros d ->%list_elem_of_singleton. split; vm_compute; eauto.
  - right. vm_compute. reflexivity.
Defined.
